(** * ZORD evidence ledger: the Merkle tree of [backend/app/core/merkle.py]

    A shallow embedding of the Merkle tree that aggregates compliance
    evidence, and the properties of its root, its inclusion proofs, its
    level cache and its serialisation.

    Conventions of the embedding.
    - A Python [str] is a Rocq [string] holding the UTF-8 bytes of the text,
      so that [str.encode()] is the list of its bytes, [+] is [String.append]
      and [==] is equality of strings.
    - A Python [int] is a [Z]; list subscripts follow Python (negative
      subscripts count from the end, anything else out of range raises
      [IndexError]).
    - A method of [MerkleTree] is a function from the object's state to an
      outcome (a value or a raised exception) and the state it leaves.
    - The state of a tree is the value of its four attributes. In
      [MerkleTree] lists are values: a tree is followed through its own
      method calls. In [Shared] lists and trees are objects of a store, for
      the programs in which two trees hold the same list.
    - Logging calls have no effect on the state and are left out. *)

From Stdlib Require Import ZArith List String Ascii Lia.
From Stdlib.Strings Require Import Byte.
From stdpp Require Import gmap strings list fin_maps.
From Equations Require Import Equations.

Local Open Scope string_scope.
Local Open Scope list_scope.

(** ** [hashlib.sha256]: SHA-256 on byte strings (FIPS 180-4) *)

Module SHA256.
Local Open Scope Z_scope.

Definition wrap (x : Z) : Z := x mod 2 ^ 32.
Definition add32 (x y : Z) : Z := wrap (x + y).
Definition rotr (n x : Z) : Z :=
  Z.lor (Z.shiftr x n) (wrap (Z.shiftl x (32 - n))).

Definition Ch (x y z : Z) : Z :=
  Z.lxor (Z.land x y) (Z.land (Z.lnot x) z).
Definition Maj (x y z : Z) : Z :=
  Z.lxor (Z.lxor (Z.land x y) (Z.land x z)) (Z.land y z).
Definition bsig0 (x : Z) : Z :=
  Z.lxor (Z.lxor (rotr 2 x) (rotr 13 x)) (rotr 22 x).
Definition bsig1 (x : Z) : Z :=
  Z.lxor (Z.lxor (rotr 6 x) (rotr 11 x)) (rotr 25 x).
Definition ssig0 (x : Z) : Z :=
  Z.lxor (Z.lxor (rotr 7 x) (rotr 18 x)) (Z.shiftr x 3).
Definition ssig1 (x : Z) : Z :=
  Z.lxor (Z.lxor (rotr 17 x) (rotr 19 x)) (Z.shiftr x 10).

(** The constants are fractional parts of roots of the first primes:
    [iroot k n] is the integer [k]-th root of [n], found bit by bit. *)
Definition is_prime (n : nat) : bool :=
  forallb (fun d => negb (Nat.eqb (Nat.modulo n d) 0)) (seq 2 (n - 2)).

Definition first_primes (count : nat) : list Z :=
  map Z.of_nat (firstn count (filter is_prime (seq 2 400))).

Definition iroot (k n : Z) : Z :=
  fold_left (fun r bit => let c := r + 2 ^ Z.of_nat bit in
                          if c ^ k <=? n then c else r)
            (rev (seq 0 40)) 0.

(** Round constants: the first 32 bits of the fractional parts of the cube
    roots of the first 64 primes. *)
Definition K : list Z :=
  Eval vm_compute in map (fun p => wrap (iroot 3 (p * 2 ^ 96))) (first_primes 64).

(** Initial hash value: the same of the square roots of the first 8 primes. *)
Definition H0 : list Z :=
  Eval vm_compute in map (fun p => wrap (iroot 2 (p * 2 ^ 64))) (first_primes 8).

(** The eight working variables a..h. *)
Record regs := Regs { ra : Z; rb : Z; rc : Z; rd : Z;
                      re : Z; rf : Z; rg : Z; rh : Z }.

Definition regs_of_list (l : list Z) : regs :=
  Regs (nth 0 l 0) (nth 1 l 0) (nth 2 l 0) (nth 3 l 0)
       (nth 4 l 0) (nth 5 l 0) (nth 6 l 0) (nth 7 l 0).

Definition list_of_regs (r : regs) : list Z :=
  [ ra r; rb r; rc r; rd r; re r; rf r; rg r; rh r ].

Definition round (r : regs) (k w : Z) : regs :=
  let t1 := add32 (add32 (add32 (add32 (rh r) (bsig1 (re r)))
                                (Ch (re r) (rf r) (rg r))) k) w in
  let t2 := add32 (bsig0 (ra r)) (Maj (ra r) (rb r) (rc r)) in
  Regs (add32 t1 t2) (ra r) (rb r) (rc r) (add32 (rd r) t1) (re r) (rf r) (rg r).

(** The message schedule is kept as a window of sixteen words: its head is
    the word of the current round, and the word sixteen rounds ahead is
    appended while the head is dropped. *)
Definition slide (win : list Z) : list Z :=
  let w := add32 (add32 (add32 (ssig1 (nth 14 win 0)) (nth 9 win 0))
                        (ssig0 (nth 1 win 0))) (nth 0 win 0) in
  tl win ++ [w].

Fixpoint rounds (ks : list Z) (win : list Z) (r : regs) : regs :=
  match ks with
  | [] => r
  | k :: ks' => rounds ks' (slide win) (round r k (nth 0 win 0))
  end.

Definition compress (h : list Z) (block : list Z) : list Z :=
  let r := rounds K block (regs_of_list h) in
  map (fun p => add32 (fst p) (snd p)) (combine h (list_of_regs r)).

Fixpoint be_words (n : nat) (bytes : list Z) : list Z :=
  match n with
  | O => []
  | S n' =>
      match bytes with
      | b0 :: b1 :: b2 :: b3 :: rest =>
          (((b0 * 256 + b1) * 256 + b2) * 256 + b3) :: be_words n' rest
      | _ => []
      end
  end.

Fixpoint blocks (n : nat) (bytes : list Z) (h : list Z) : list Z :=
  match n with
  | O => h
  | S n' => blocks n' (skipn 64 bytes) (compress h (be_words 16 (firstn 64 bytes)))
  end.

Definition be_bytes8 (x : Z) : list Z :=
  map (fun i => (x / 256 ^ (7 - Z.of_nat i)) mod 256) (seq 0 8).

Definition pad (msg : list Z) : list Z :=
  let len := Z.of_nat (length msg) in
  let zeros := Z.to_nat ((55 - len) mod 64) in
  msg ++ [0x80] ++ repeat 0 zeros ++ be_bytes8 (8 * len).

Definition digest (msg : list Z) : list Z :=
  let p := pad msg in
  blocks (Nat.div (length p) 64) p H0.

Definition hex_digit (d : Z) : ascii :=
  nth (Z.to_nat d) (list_ascii_of_string "0123456789abcdef") "0"%char.

Definition hex_word (w : Z) : list ascii :=
  map (fun i => hex_digit ((w / 16 ^ (7 - Z.of_nat i)) mod 16)) (seq 0 8).

(** [hashlib.sha256(b).hexdigest()] *)
Definition hexdigest (msg : list Z) : string :=
  string_of_list_ascii (concat (map hex_word (digest msg))).

End SHA256.

(** [s.encode()]: the UTF-8 bytes of a string. *)
Definition encode (s : string) : list Z :=
  map (fun b => Z.of_N (Byte.to_N b)) (list_byte_of_string s).

(** ** Python values and control *)

(** The exceptions this module can raise. *)
Inductive exc : Type := IndexError | KeyError | ValueError | AttributeError.

(** What evaluating an expression gives: a value, or a raised exception. *)
Inductive outcome (A : Type) : Type :=
| Ok (a : A)
| Raise (e : exc).
Arguments Ok {A} a.
Arguments Raise {A} e.

#[global] Instance outcome_ret : MRet outcome := @Ok.
#[global] Instance outcome_bind : MBind outcome := fun A B f x =>
  match x with Ok a => f a | Raise e => Raise e end.
#[global] Instance outcome_fmap : FMap outcome := fun A B f x =>
  match x with Ok a => Ok (f a) | Raise e => Raise e end.

(** [len(l)] *)
Definition len {A} (l : list A) : Z := Z.of_nat (length l).

(** [l[i]] on a list. *)
Definition getitem {A} (l : list A) (i : Z) : outcome A :=
  let j := if (i <? 0)%Z then (i + len l)%Z else i in
  if ((j <? 0) || (len l <=? j))%Z then Raise IndexError
  else match l !! Z.to_nat j with
       | Some x => Ok x
       | None => Raise IndexError
       end.

(** [d[k]] on a dict whose key may be absent. *)
Definition dict_getitem {A} (d : gmap Z A) (k : Z) : outcome A :=
  match d !! k with
  | Some v => Ok v
  | None => Raise KeyError
  end.

(** [d[k]] on a document, seen as the field [k] that is there or not. *)
Definition field {A} (v : option A) : outcome A :=
  match v with
  | Some x => Ok x
  | None => Raise KeyError
  end.

(** [l.index(x)]: the first position of [x], or [ValueError]. *)
Fixpoint index (l : list string) (x : string) : outcome Z :=
  match l with
  | [] => Raise ValueError
  | y :: l' => if bool_decide (y = x) then Ok 0%Z
               else (fun i => 1 + i)%Z <$> index l' x
  end.

(** [range(start, stop, step)] for a positive step. *)
Definition range (start stop step : Z) : list Z :=
  (fun k => start + step * Z.of_nat k)%Z
    <$> seq 0 (Z.to_nat ((stop - start + step - 1) / step)).

(** A value together with the equation that names it, for loops whose
    termination depends on what a call returned. *)
Definition inspect {A : Type} (x : A) : { y : A | x = y } := exist _ x eq_refl.

(** [try: body except Exception: handler] *)
Definition try_except {A} (body : outcome A) (handler : exc -> outcome A)
  : outcome A :=
  match body with
  | Ok a => Ok a
  | Raise e => handler e
  end.

(** [MerkleTree._hash_data], and every inlined
    [hashlib.sha256(s.encode()).hexdigest()]. *)
Definition _hash_data (data : string) : string :=
  SHA256.hexdigest (encode data).

(** ** [class MerkleNode] *)

Module MerkleNode.

#[warnings="-register-all"]
Inductive t : Type := Build {
  hash : string;
  left : option t;
  right : option t;
  data : option string   (* only for leaf nodes *)
}.

Definition is_leaf (self : t) : bool :=
  match left self, right self with
  | None, None => true
  | _, _ => false
  end.

End MerkleNode.

(** ** The proof as a dictionary (the wire shape)

    A key is absent ([None]) or carries a value of the type the dataclass
    annotates for it. *)

Module ProofDict.

Record t : Type := Build {
  leaf_hash : option string;
  leaf_index : option Z;
  proof_hashes : option (list string);
  proof_directions : option (list string);
  root_hash : option string
}.

End ProofDict.

(** ** [class MerkleProof] *)

Module MerkleProof.

Record t : Type := Build {
  leaf_hash : string;
  leaf_index : Z;
  proof_hashes : list string;
  proof_directions : list string;   (* 'left' or 'right' *)
  root_hash : string
}.

Definition to_dict (self : t) : ProofDict.t :=
  ProofDict.Build (Some (leaf_hash self)) (Some (leaf_index self))
    (Some (proof_hashes self)) (Some (proof_directions self))
    (Some (root_hash self)).

(** The body of [for i, proof_hash in enumerate(self.proof_hashes)]: [i] is
    the position reached, [hashes] what is left to enumerate. *)
Fixpoint verify_loop (directions : list string) (i : Z) (hashes : list string)
    (current_hash : string) : outcome string :=
  match hashes with
  | [] => Ok current_hash
  | proof_hash :: hashes' =>
      direction ← getitem directions i;
      let combined :=
        if bool_decide (direction = "left")
        then proof_hash +:+ current_hash
        else current_hash +:+ proof_hash in
      verify_loop directions (i + 1) hashes' (_hash_data combined)
  end.

Definition verify (self : t) : outcome bool :=
  current_hash ← verify_loop (proof_directions self) 0 (proof_hashes self)
                   (leaf_hash self);
  Ok (bool_decide (current_hash = root_hash self)).

End MerkleProof.

(** ** The evidence handed to [MerkleTree.verify_evidence_inclusion]

    The method touches its argument through [evidence.get_hash()] only, so
    the object is seen through that attribute: [Some h] when it has a
    [get_hash] method returning [h], [None] when it has none. *)

Module Evidence.

Record t : Type := Build { get_hash : option string }.

(** [class ComplianceEvidence] of [compliance_engine.py] defines [add_rule],
    [_get_risk_weight], [to_dict] and [compute_hash]; it has no [get_hash]. *)
Definition ComplianceEvidence : t := Build None.

End Evidence.

(** ** The dictionaries of [get_tree_info] and [serialize] *)

Module TreeInfo.

Record t : Type := Build {
  total_leaves : Z;
  tree_height : Z;
  root_hash : string;
  is_built : bool
}.

End TreeInfo.

(** A serialised tree, as a document whose keys may be absent. *)
Module TreeDoc.

Record t : Type := Build {
  leaves : option (list string);
  leaf_hashes : option (list string);
  root_hash : option string;
  tree_info : option TreeInfo.t
}.

(** The document with its [root_hash] entry overwritten. *)
Definition with_root_hash (r : option string) (doc : t) : t :=
  Build (leaves doc) (leaf_hashes doc) r (tree_info doc).

End TreeDoc.

(** ** [class MerkleTree] *)

Module MerkleTree.

Record t : Type := Build {
  leaves : list string;                          (* leaf data *)
  leaf_hashes : list string;                     (* computed leaf hashes *)
  root : option MerkleNode.t;
  _tree_cache : gmap Z (list MerkleNode.t)       (* tree levels *)
}.

(** [MerkleTree()] *)
Definition __init__ : t := Build [] [] None ∅.

(** A method: the outcome of the call and the state of [self] after it. *)
Definition M (A : Type) : Type := t -> outcome A * t.

Definition add_leaf (data : string) : M string := fun self =>
  let leaf_hash := _hash_data data in
  (Ok leaf_hash,
   Build (leaves self ++ [data]) (leaf_hashes self ++ [leaf_hash]) None ∅).

(** The parent built from a pair of nodes. *)
Definition parent_node (left_node right_node : MerkleNode.t) : MerkleNode.t :=
  let combined_hash := MerkleNode.hash left_node +:+ MerkleNode.hash right_node in
  let parent_hash := _hash_data combined_hash in
  MerkleNode.Build parent_hash (Some left_node) (Some right_node) None.

(** [for i in range(0, len(current_level), 2)]: [idx] is what is left of the
    range, [next_level] the list appended to so far. *)
Fixpoint pair_loop (current_level : list MerkleNode.t) (idx : list Z)
    (next_level : list MerkleNode.t) : outcome (list MerkleNode.t) :=
  match idx with
  | [] => Ok next_level
  | i :: idx' =>
      left_node ← getitem current_level i;
      right_node ← (if (i + 1 <? len current_level)%Z
                    then getitem current_level (i + 1)   (* pair exists *)
                    else getitem current_level i);       (* duplicate the last one *)
      pair_loop current_level idx'
                (next_level ++ [parent_node left_node right_node])
  end.

Definition next_level_of (current_level : list MerkleNode.t)
  : outcome (list MerkleNode.t) :=
  pair_loop current_level (range 0 (len current_level) 2) [].

Lemma pair_loop_length current_level idx acc next_level :
  pair_loop current_level idx acc = Ok next_level ->
  length next_level = length acc + length idx.
Proof.
  revert acc. induction idx as [|i idx IH]; intros acc; simpl.
  - intros [= <-]. lia.
  - destruct (getitem current_level i) as [l|]; simpl; [|discriminate].
    destruct (if (i + 1 <? len current_level)%Z then _ else _) as [r|];
      simpl; [|discriminate].
    intros H. apply IH in H. rewrite length_app in H. simpl in H. lia.
Qed.

Lemma range_length start stop step :
  length (range start stop step) = Z.to_nat ((stop - start + step - 1) / step).
Proof. unfold range. rewrite length_fmap. apply length_seq. Qed.

Lemma next_level_shorter current_level next_level :
  1 < length current_level ->
  next_level_of current_level = Ok next_level ->
  length next_level < length current_level.
Proof.
  intros Hlen H. apply pair_loop_length in H.
  rewrite range_length in H. simpl in H. unfold len in H.
  assert ((Z.of_nat (length current_level) - 0 + 2 - 1) / 2
          < Z.of_nat (length current_level))%Z.
  { apply Z.div_lt_upper_bound; lia. }
  lia.
Qed.

(** [while len(current_level) > 1]: gives the last level and the cache with
    every level stored on the way. *)
Equations level_loop (current_level : list MerkleNode.t) (level_index : Z)
    (cache : gmap Z (list MerkleNode.t))
  : outcome (list MerkleNode.t) * gmap Z (list MerkleNode.t)
  by wf (length current_level) lt :=
level_loop current_level level_index cache
  with decide (1 < length current_level) := {
  | right _ => (Ok current_level, cache)
  | left Hlen with inspect (next_level_of current_level) := {
    | exist _ (Raise e) _ => (Raise e, cache)
    | exist _ (Ok next_level) Hnext =>
        level_loop next_level (level_index + 1)
                   (<[(level_index + 1)%Z := next_level]> cache) } }.
Next Obligation. eauto using next_level_shorter. Qed.

(** Sequencing of method calls on [self]; an exception ends the method and
    leaves [self] as it was when it was raised. *)
Definition ret {A} (a : A) : M A := fun self => (Ok a, self).
Definition bind {A B} (m : M A) (k : A -> M B) : M B := fun self =>
  match m self with
  | (Ok a, self') => k a self'
  | (Raise e, self') => (Raise e, self')
  end.
Definition lift {A} (o : outcome A) : M A := fun self => (o, self).
Definition set_root (r : option MerkleNode.t) (self : t) : t :=
  Build (leaves self) (leaf_hashes self) r (_tree_cache self).
Definition set_cache (c : gmap Z (list MerkleNode.t)) (self : t) : t :=
  Build (leaves self) (leaf_hashes self) (root self) c.

Notation "'let!' x ':=' m 'in' k" := (bind m (fun x => k))
  (at level 10, x name, m at level 100, k at level 200, only parsing).

(** [MerkleNode(hash=leaf_hash, data=data)] *)
Definition leaf_node (leaf_hash data : string) : MerkleNode.t :=
  MerkleNode.Build leaf_hash None None (Some data).

Definition build_tree : M string := fun self =>
  if bool_decide (leaf_hashes self = []) then
    (* empty tree *)
    let empty_hash := _hash_data "" in
    (Ok empty_hash,
     set_root (Some (MerkleNode.Build empty_hash None None None)) self)
  else if (len (leaf_hashes self) =? 1)%Z then
    (* single leaf tree *)
    match (leaf_hash ← getitem (leaf_hashes self) 0;
           data ← getitem (leaves self) 0;
           Ok (leaf_node leaf_hash data)) with
    | Ok node => (Ok (MerkleNode.hash node), set_root (Some node) self)
    | Raise e => (Raise e, self)
    end
  else
    (* build tree bottom-up *)
    let current_level :=
      (fun p => leaf_node (fst p) (snd p))
        <$> zip (leaf_hashes self) (leaves self) in
    let level_index := 0%Z in
    let cache := <[level_index := current_level]> (_tree_cache self) in
    let '(looped, cache) := level_loop current_level level_index cache in
    match (current_level ← looped; getitem current_level 0) with
    | Ok node =>
        (Ok (MerkleNode.hash node), set_root (Some node) (set_cache cache self))
    | Raise e => (Raise e, set_cache cache self)
    end.

Definition get_root : M string := fun self =>
  match root self with
  | None => build_tree self
  | Some node => (Ok (MerkleNode.hash node), self)
  end.

(** [for level in range(len(self._tree_cache) - 1)]: [levels] is what is
    left of the range. *)
Fixpoint proof_loop (cache : gmap Z (list MerkleNode.t)) (levels : list Z)
    (proof_hashes proof_directions : list string) (current_index : Z)
  : outcome (list string * list string) :=
  match levels with
  | [] => Ok (proof_hashes, proof_directions)
  | level :: levels' =>
      level_nodes ← dict_getitem cache level;
      let '(sibling_index, direction) :=
        if (current_index mod 2 =? 0)%Z
        then ((current_index + 1)%Z, "right")    (* sibling is right *)
        else ((current_index - 1)%Z, "left") in  (* sibling is left *)
      sibling_hash ←
        (if (sibling_index <? len level_nodes)%Z
         then MerkleNode.hash <$> getitem level_nodes sibling_index
         else MerkleNode.hash <$> getitem level_nodes current_index);
      proof_loop cache levels' (proof_hashes ++ [sibling_hash])
                 (proof_directions ++ [direction]) (current_index / 2)%Z
  end.

Definition get_proof_by_index (leaf_index : Z) : M (option MerkleProof.t) :=
  fun self =>
  if ((leaf_index <? 0) || (len (leaf_hashes self) <=? leaf_index))%Z then
    (Ok None, self)
  else
    (let! root_hash := get_root in
     fun self =>
     if (len (leaf_hashes self) =? 1)%Z then
       lift (leaf_hash ← getitem (leaf_hashes self) 0;
             Ok (Some (MerkleProof.Build leaf_hash 0 [] [] root_hash))) self
     else
       lift ('(proof_hashes, proof_directions) ←
               proof_loop (_tree_cache self)
                 (range 0 (Z.of_nat (size (_tree_cache self)) - 1) 1)
                 [] [] leaf_index;
             leaf_hash ← getitem (leaf_hashes self) leaf_index;
             Ok (Some (MerkleProof.Build leaf_hash leaf_index proof_hashes
                         proof_directions root_hash))) self) self.

Definition get_proof (leaf_data : string) : M (option MerkleProof.t) :=
  fun self =>
  match index (leaves self) leaf_data with
  | Ok leaf_index => get_proof_by_index leaf_index self
  | Raise ValueError => (Ok None, self)
  | Raise e => (Raise e, self)
  end.

Definition verify_proof (proof : MerkleProof.t) : M bool :=
  let! expected_root := get_root in
  if bool_decide (MerkleProof.root_hash proof = expected_root)
  then lift (MerkleProof.verify proof)
  else ret false.

Definition get_tree_info : M TreeInfo.t := fun self =>
  let tree_height :=
    if bool_decide (_tree_cache self = ∅)
    then (if bool_decide (leaf_hashes self = []) then 0 else 1)%Z
    else Z.of_nat (size (_tree_cache self)) in
  let total_leaves := len (leaf_hashes self) in
  (let! root_hash := get_root in
   fun self =>
   (Ok (TreeInfo.Build total_leaves tree_height root_hash
          (bool_decide (root self <> None))), self)) self.

Definition serialize : M TreeDoc.t := fun self =>
  (let! root_hash := get_root in
   let! tree_info := get_tree_info in
   ret (TreeDoc.Build (Some (leaves self)) (Some (leaf_hashes self))
          (Some root_hash) (Some tree_info))) self.

(** [MerkleTree.deserialize(data)]: a class method, so it starts from no
    tree and returns one. *)
Definition deserialize (data : TreeDoc.t) : outcome t :=
  let tree := __init__ in
  leaves ← field (TreeDoc.leaves data);
  let tree := Build leaves (leaf_hashes tree) (root tree) (_tree_cache tree) in
  leaf_hashes ← field (TreeDoc.leaf_hashes data);
  let tree := Build (MerkleTree.leaves tree) leaf_hashes (root tree)
                (_tree_cache tree) in
  (* rebuild tree structure *)
  if bool_decide (MerkleTree.leaf_hashes tree = []) then Ok tree
  else match build_tree tree with
       | (Ok _, tree) => Ok tree
       | (Raise e, _) => Raise e
       end.

(** [for i in range(len(self.leaves))] of [export_proofs]. *)
Fixpoint export_loop (idx : list Z) (proofs : list (string * ProofDict.t))
  : M (list (string * ProofDict.t)) :=
  match idx with
  | [] => ret proofs
  | i :: idx' =>
      let! proof := get_proof_by_index i in
      match proof with
      | Some proof =>
          let! leaf_data := (fun self => (getitem (leaves self) i, self)) in
          export_loop idx' (proofs ++ [(leaf_data, MerkleProof.to_dict proof)])
      | None => export_loop idx' proofs
      end
  end.

Definition export_proofs : M (list (string * ProofDict.t)) := fun self =>
  export_loop (range 0 (len (leaves self)) 1) [] self.

(** The method [verify_evidence_inclusion(self, evidence)]. The class has no
    attribute [generate_proof], so looking it up raises. *)
Definition verify_evidence_inclusion (evidence : Evidence.t) : M bool :=
  fun self =>
  match Evidence.get_hash evidence with
  | None => (Raise AttributeError, self)      (* evidence.get_hash *)
  | Some evidence_hash =>
      if bool_decide (evidence_hash ∈ leaf_hashes self) then
        (* get leaf index *)
        match index (leaf_hashes self) evidence_hash with
        | Ok leaf_index =>
            (* generate proof *)
            (Raise AttributeError, self)      (* self.generate_proof *)
        | Raise e => (Raise e, self)
        end
      else (Ok false, self)
  end.

End MerkleTree.

(** ** Module-level functions *)

Definition create_evidence_tree (evidence_hashes : list string) : MerkleTree.t :=
  let tree :=
    foldl (fun tree evidence_hash =>
             snd (MerkleTree.add_leaf evidence_hash tree))
          MerkleTree.__init__ evidence_hashes in
  snd (MerkleTree.build_tree tree).

Definition verify_evidence_inclusion (evidence_hash : string)
    (proof : ProofDict.t) (expected_root : string) : outcome bool :=
  try_except
    (let actual_leaf_hash := _hash_data evidence_hash in
     leaf_hash ← field (ProofDict.leaf_hash proof);
     leaf_index ← field (ProofDict.leaf_index proof);
     proof_hashes ← field (ProofDict.proof_hashes proof);
     proof_directions ← field (ProofDict.proof_directions proof);
     root_hash ← field (ProofDict.root_hash proof);
     let merkle_proof :=
       MerkleProof.Build leaf_hash leaf_index proof_hashes proof_directions
         root_hash in
     if bool_decide (MerkleProof.leaf_hash merkle_proof = actual_leaf_hash)
     then if bool_decide (MerkleProof.root_hash merkle_proof = expected_root)
          then MerkleProof.verify merkle_proof
          else Ok false
     else Ok false)
    (fun e => Ok false).

(** ** The states a tree goes through

    One call of a public method on a tree; [run] gives the state it leaves,
    whatever the call returned or raised. *)

Inductive call : Type :=
| Add_leaf (data : string)
| Build_tree
| Get_root
| Get_proof (leaf_data : string)
| Get_proof_by_index (leaf_index : Z)
| Verify_proof (proof : MerkleProof.t)
| Get_tree_info
| Serialize
| Export_proofs
| Verify_evidence_inclusion (evidence : Evidence.t).

Definition run (c : call) (self : MerkleTree.t) : MerkleTree.t :=
  match c with
  | Add_leaf data => snd (MerkleTree.add_leaf data self)
  | Build_tree => snd (MerkleTree.build_tree self)
  | Get_root => snd (MerkleTree.get_root self)
  | Get_proof leaf_data => snd (MerkleTree.get_proof leaf_data self)
  | Get_proof_by_index i => snd (MerkleTree.get_proof_by_index i self)
  | Verify_proof proof => snd (MerkleTree.verify_proof proof self)
  | Get_tree_info => snd (MerkleTree.get_tree_info self)
  | Serialize => snd (MerkleTree.serialize self)
  | Export_proofs => snd (MerkleTree.export_proofs self)
  | Verify_evidence_inclusion ev =>
      snd (MerkleTree.verify_evidence_inclusion ev self)
  end.

(** The states of a tree that holds its lists alone: a new tree, and a tree
    after any call. *)
Inductive reachable : MerkleTree.t -> Prop :=
| reachable_new : reachable MerkleTree.__init__
| reachable_call c self : reachable self -> reachable (run c self).

(** ** The reference definitions, following the specification *)

(** H, the hash of a string as lowercase hex. *)
Abbreviation H := _hash_data (only parsing).

(** One level up: adjacent hashes are paired left to right; the last hash of
    an odd level is paired with itself. *)
Fixpoint ref_parents (hs : list string) : list string :=
  match hs with
  | [] => []
  | [last] => [H (last +:+ last)]
  | l :: r :: rest => H (l +:+ r) :: ref_parents rest
  end.

Lemma ref_parents_length hs : length (ref_parents hs) = (length hs + 1) / 2.
Proof.
  induction hs as [hs IH] using (induction_ltof1 _ (@length string)).
  destruct hs as [|a [|b rest]]; try reflexivity.
  cbn [ref_parents length]. rewrite IH by (unfold ltof; simpl; lia).
  replace (S (S (length rest)) + 1) with (length rest + 1 + 1 * 2) by lia.
  rewrite Nat.div_add by lia. lia.
Qed.

(** The levels from the leaves up to the level that has a single hash. *)
Equations ref_levels (hs : list string) : list (list string)
  by wf (length hs) lt :=
ref_levels hs with decide (1 < length hs) := {
  | right _ => [hs]
  | left _ => hs :: ref_levels (ref_parents hs) }.
Next Obligation.
  rewrite ref_parents_length. apply Nat.Div0.div_lt_upper_bound; lia.
Qed.

(** The reference root of a sequence of leaves. *)
Definition ref_root (leaf_data : list string) : string :=
  match H <$> leaf_data with
  | [] => H ""
  | [leaf_hash] => leaf_hash
  | hs => default "" (last (ref_levels hs) ≫= head)
  end.

(** One step of standalone verification. *)
Definition fold_step (current : string) (p : string * string) : string :=
  let '(sibling, direction) := p in
  if bool_decide (direction = "left")
  then H (sibling +:+ current)
  else H (current +:+ sibling).

(** Standalone verification: fold the pairs in order, compare to the root. *)
Definition spec_verify (leaf_hash : string) (pairs : list (string * string))
    (root_hash : string) : bool :=
  bool_decide (foldl fold_step leaf_hash pairs = root_hash).

(** The sibling and the direction at one level. *)
Definition spec_sibling (level : list string) (index : nat) : string * string :=
  let sibling_index := if Nat.even index then index + 1 else index - 1 in
  let direction := if Nat.even index then "right" else "left" in
  let own := default "" (level !! index) in
  (default own (level !! sibling_index), direction).

(** The proof of a leaf: one pair per level below the root, from the leaves
    up, the index halving at each level. *)
Fixpoint spec_path (levels : list (list string)) (index : nat)
  : list (string * string) :=
  match levels with
  | [] => []
  | level :: above => spec_sibling level index :: spec_path above (index / 2)
  end.

(** The levels below the root. *)
Definition below_root {A} (levels : list A) : list A := removelast levels.

(** The proof of the leaf at position [index] of a sequence of leaves. *)
Definition spec_proof (leaf_data : list string) (index : nat) : MerkleProof.t :=
  let path := spec_path (below_root (ref_levels (H <$> leaf_data))) index in
  MerkleProof.Build (default "" ((H <$> leaf_data) !! index)) (Z.of_nat index)
    (path.*1) (path.*2) (ref_root leaf_data).

(** The same level decomposition on nodes, as the builder caches it. *)
Fixpoint node_parents (ns : list MerkleNode.t) : list MerkleNode.t :=
  match ns with
  | [] => []
  | [last] => [MerkleTree.parent_node last last]
  | l :: r :: rest => MerkleTree.parent_node l r :: node_parents rest
  end.

Lemma node_parents_length ns : length (node_parents ns) = (length ns + 1) / 2.
Proof.
  induction ns as [ns IH] using (induction_ltof1 _ (@length MerkleNode.t)).
  destruct ns as [|a [|b rest]]; try reflexivity.
  cbn [node_parents length]. rewrite IH by (unfold ltof; simpl; lia).
  replace (S (S (length rest)) + 1) with (length rest + 1 + 1 * 2) by lia.
  rewrite Nat.div_add by lia. lia.
Qed.

Equations node_levels (ns : list MerkleNode.t) : list (list MerkleNode.t)
  by wf (length ns) lt :=
node_levels ns with decide (1 < length ns) := {
  | right _ => [ns]
  | left _ => ns :: node_levels (node_parents ns) }.
Next Obligation.
  rewrite node_parents_length. apply Nat.Div0.div_lt_upper_bound; lia.
Qed.

(** The leaf nodes of a leaf store. *)
Definition leaf_nodes (self : MerkleTree.t) : list MerkleNode.t :=
  (fun p => MerkleTree.leaf_node (fst p) (snd p))
    <$> zip (MerkleTree.leaf_hashes self) (MerkleTree.leaves self).

(** The levels of a leaf store as a cache: level [k] under key [k]. Only a
    store of two leaves or more has its levels cached. *)
Definition level_cache (self : MerkleTree.t) : gmap Z (list MerkleNode.t) :=
  if decide (1 < length (MerkleTree.leaf_hashes self))
  then map_seqZ 0 (node_levels (leaf_nodes self))
  else ∅.

(** The node at the top of the level decomposition. *)
Definition top_node (self : MerkleTree.t) : MerkleNode.t :=
  match MerkleTree.leaf_hashes self, MerkleTree.leaves self with
  | [], _ => MerkleNode.Build (H "") None None None
  | [leaf_hash], data :: _ => MerkleTree.leaf_node leaf_hash data
  | _, _ => default (MerkleNode.Build "" None None None)
              (last (node_levels (leaf_nodes self)) ≫= head)
  end.

(** The two states of the lifecycle, for a sequence of leaves. *)
Definition Dirty (leaf_data : list string) : MerkleTree.t :=
  MerkleTree.Build leaf_data (H <$> leaf_data) None ∅.

Definition Built (leaf_data : list string) : MerkleTree.t :=
  snd (MerkleTree.build_tree (Dirty leaf_data)).

(** ** Trees and proofs the examples run on *)

(** [add_leaf("data1")], [add_leaf("data2")], [add_leaf("data3")] on a new
    tree. *)
Definition three_leaves : MerkleTree.t :=
  run (Add_leaf "data3")
    (run (Add_leaf "data2") (run (Add_leaf "data1") MerkleTree.__init__)).

(** The proof of ["data1"] in the tree of ["data1"] and ["data2"], written
    by hand. *)
Definition two_leaf_proof : MerkleProof.t :=
  MerkleProof.Build (H "data1") 0 [H "data2"] ["right"]
    (H (H "data1" +:+ H "data2")).

(** A proof object with one sibling hash and no direction, claimed against
    the root of the empty tree. *)
Definition malformed_proof : MerkleProof.t :=
  MerkleProof.Build (H "") 0 ["00"] [] (H "").

(** An evidence object that does have a [get_hash] method. *)
Definition hashed_evidence (h : string) : Evidence.t := Evidence.Build (Some h).

(** The tree of ["data1"], ["data2"], ["data3"] once built. *)
Definition three_leaves_built : MerkleTree.t := run Build_tree three_leaves.

(** The dictionary [{"invalid": "proof"}]: none of the expected keys. *)
Definition invalid_dict : ProofDict.t :=
  ProofDict.Build None None None None None.

(** The lifecycle of the specification: a tree is Dirty or Built. *)
Inductive lifecycle : MerkleTree.t -> Prop :=
| is_Dirty leaf_data : lifecycle (Dirty leaf_data)
| is_Built leaf_data : lifecycle (Built leaf_data).

(** ** More of [merkle.py] and of its callers *)

(** A lowercase hexadecimal digit. *)
Definition is_hex_char (c : ascii) : bool :=
  existsb (Ascii.eqb c) (list_ascii_of_string "0123456789abcdef").

(** A SHA-256 hex digest: 64 lowercase hexadecimal digits. *)
Definition is_digest (s : string) : Prop :=
  String.length s = 64
  /\ forallb is_hex_char (list_ascii_of_string s) = true.

(** The root over leaf hashes that are given rather than computed. *)
Definition hash_root (leaf_hashes : list string) : string :=
  match leaf_hashes with
  | [] => H ""
  | [leaf_hash] => leaf_hash
  | hs => default "" (last (ref_levels hs) ≫= head)
  end.

(** A node is a leaf, or has two children whose hashes give its own. *)
Fixpoint well_formed (node : MerkleNode.t) : bool :=
  match node with
  | MerkleNode.Build node_hash node_left node_right node_data =>
      match node_left, node_right with
      | None, None => true
      | Some left_node, Some right_node =>
          bool_decide (node_data = None)
          && bool_decide (node_hash = H (MerkleNode.hash left_node
                                          +:+ MerkleNode.hash right_node))
          && well_formed left_node && well_formed right_node
      | _, _ => false
      end
  end.

(** What [verify] makes of a direction: anything but ['left'] is a right. *)
Definition as_read (direction : string) : string :=
  if bool_decide (direction = "left") then "left" else "right".

(** *** The endpoints of [api/v1/transactions.py] on the evidence tree

    The module holds one tree, [evidence_tree]; an endpoint is a function of
    its state. It returns a response or raises an [HTTPException]. *)

Inductive http (A : Type) : Type :=
| Response (body : A)
| HTTPException (status_code : Z) (detail : string).
Arguments Response {A} body.
Arguments HTTPException {A} status_code detail.

Module MerkleRoot.
Record t : Type := Build {
  root_hash : string;
  total_leaves : Z;
  tree_height : Z;
  last_updated : string
}.
End MerkleRoot.

Module ProofResponse.
Record t : Type := Build {
  proof : ProofDict.t;        (* the keys of [proof.to_dict()] *)
  verified : bool
}.
End ProofResponse.

(** [GET /merkle/root] *)
Definition get_merkle_root (evidence_tree : MerkleTree.t)
  : http MerkleRoot.t * MerkleTree.t :=
  match MerkleTree.bind MerkleTree.get_root (fun root_hash =>
          MerkleTree.bind MerkleTree.get_tree_info (fun tree_info =>
            MerkleTree.ret
              (MerkleRoot.Build root_hash (TreeInfo.total_leaves tree_info)
                 (TreeInfo.tree_height tree_info) "2025-09-10T12:00:00Z")))
          evidence_tree with
  | (Ok body, evidence_tree) => (Response body, evidence_tree)
  | (Raise e, evidence_tree) =>
      (HTTPException 500 "Failed to get Merkle root", evidence_tree)
  end.

(** [GET /merkle/proof/{evidence_hash}] *)
Definition get_merkle_proof (evidence_hash : string)
    (evidence_tree : MerkleTree.t) : http ProofResponse.t * MerkleTree.t :=
  match MerkleTree.get_proof evidence_hash evidence_tree with
  | (Ok None, evidence_tree) =>
      (HTTPException 404 "Evidence hash not found in tree", evidence_tree)
  | (Ok (Some proof), evidence_tree) =>
      (* verify the proof *)
      match MerkleTree.verify_proof proof evidence_tree with
      | (Ok is_valid, evidence_tree) =>
          (Response (ProofResponse.Build (MerkleProof.to_dict proof) is_valid),
           evidence_tree)
      | (Raise e, evidence_tree) =>
          (HTTPException 500 "Failed to get Merkle proof", evidence_tree)
      end
  | (Raise e, evidence_tree) =>
      (HTTPException 500 "Failed to get Merkle proof", evidence_tree)
  end.

(** Two states of a tree with the same leaf store. *)
Definition same_store (self self' : MerkleTree.t) : Prop :=
  MerkleTree.leaves self' = MerkleTree.leaves self
  /\ MerkleTree.leaf_hashes self' = MerkleTree.leaf_hashes self.

(** What [export_proofs] lists for the leaves [rest] that start at position
    [j] of [ls]. *)
Definition exported (ls : list string) (j : nat) (rest : list string)
  : list (string * ProofDict.t) :=
  imap (fun i d => (d, MerkleProof.to_dict (spec_proof ls (j + i)))) rest.

(** A well-formed node that is a leaf, and one that is not. *)
Definition sound_leaf (node : MerkleNode.t) : Prop :=
  well_formed node = true /\ MerkleNode.is_leaf node = true.
Definition sound_parent (node : MerkleNode.t) : Prop :=
  well_formed node = true /\ MerkleNode.is_leaf node = false.

(** ** Trees that hold the same lists

    A Python list is an object, and a tree holds its two lists by reference.
    [serialize] puts these very lists in the dictionary it returns, and
    [deserialize] makes the lists of the dictionary the lists of the new
    tree: two trees can hold one list, and an [append] through either is
    seen through both. Here lists and trees are objects of a store, named by
    their addresses. [root] and [_tree_cache] stay with one tree: no method
    hands them out. *)

Module Shared.

(** The address of an object. *)
Abbreviation addr := nat (only parsing).

(** A [MerkleTree] object: [leaves] and [leaf_hashes] name list objects. *)
Record instance : Type := Instance {
  leaves : addr;
  leaf_hashes : addr;
  root : option MerkleNode.t;
  _tree_cache : gmap Z (list MerkleNode.t)
}.

Record store : Type := Store {
  lists : list (list string);      (* the list objects, by address *)
  trees : list instance            (* the tree objects, by address *)
}.

(** The store of a program that has made no object yet. *)
Definition nothing : store := Store [] [].

(** The dictionary of [serialize]: its two lists are list objects. *)
Module Doc.
Record t : Type := Build {
  leaves : option addr;
  leaf_hashes : option addr;
  root_hash : option string;
  tree_info : option TreeInfo.t
}.
End Doc.

(** A step of a program on the store. It gives [None] when an address names
    no object; the addresses that [new] and [deserialize] return always name
    one. *)
Definition M (A : Type) : Type := store -> option (outcome A * store).

Definition ret {A} (a : A) : M A := fun s => Some (Ok a, s).
Definition lift {A} (o : outcome A) : M A := fun s => Some (o, s).
Definition bind {A B} (m : M A) (k : A -> M B) : M B := fun s =>
  match m s with
  | Some (Ok a, s') => k a s'
  | Some (Raise e, s') => Some (Raise e, s')
  | None => None
  end.

Notation "'let!' x ':=' m 'in' k" := (bind m (fun x => k))
  (at level 10, x name, m at level 100, k at level 200, only parsing).

(** Reading an object, [list.append] and the assignment of a tree's
    attributes. *)
Definition the_tree (self : addr) : M instance := fun s =>
  o ← trees s !! self; Some (Ok o, s).
Definition the_list (a : addr) : M (list string) := fun s =>
  l ← lists s !! a; Some (Ok l, s).
Definition append (a : addr) (x : string) : M unit := fun s =>
  l ← lists s !! a;
  Some (Ok tt, Store (<[a := l ++ [x]]> (lists s)) (trees s)).
Definition assign (self : addr) (o : instance) : M unit := fun s =>
  _ ← trees s !! self;
  Some (Ok tt, Store (lists s) (<[self := o]> (trees s))).

(** [MerkleTree()]: a new tree with two new empty lists. *)
Definition new : M addr := fun s =>
  let a := length (lists s) in
  Some (Ok (length (trees s)),
        Store (lists s ++ [[]; []]) (trees s ++ [Instance a (S a) None ∅])).

Definition add_leaf (data : string) (self : addr) : M string :=
  let leaf_hash := _hash_data data in
  let! o := the_tree self in
  let! _ := append (leaves o) data in
  let! _ := append (leaf_hashes o) leaf_hash in
  (* invalidate cache since tree structure changed *)
  let! _ := assign self (Instance (leaves o) (leaf_hashes o) None ∅) in
  ret leaf_hash.

(** The tree at an address with its lists read from the store: the tree as
    its own methods see it. *)
Definition view (s : store) (self : addr) : option MerkleTree.t :=
  o ← trees s !! self;
  data ← lists s !! leaves o;
  hashes ← lists s !! leaf_hashes o;
  Some (MerkleTree.Build data hashes (root o) (_tree_cache o)).

(** The methods that read the two lists and change none ([build_tree],
    [get_root], [get_tree_info]): the method runs on the tree as read from
    the store, and what it leaves in [root] and [_tree_cache] goes to the
    tree object. *)
Definition reading {A} (m : MerkleTree.M A) (self : addr) : M A := fun s =>
  o ← trees s !! self;
  tree ← view s self;
  let '(result, tree') := m tree in
  Some (result,
        Store (lists s)
          (<[self := Instance (leaves o) (leaf_hashes o)
                       (MerkleTree.root tree') (MerkleTree._tree_cache tree')]>
             (trees s))).

Definition build_tree : addr -> M string := reading MerkleTree.build_tree.
Definition get_root : addr -> M string := reading MerkleTree.get_root.
Definition get_tree_info : addr -> M TreeInfo.t :=
  reading MerkleTree.get_tree_info.

(** [serialize]: the dictionary holds [self.leaves] and [self.leaf_hashes]
    themselves, not copies of them. *)
Definition serialize (self : addr) : M Doc.t :=
  let! o := the_tree self in
  let! root_hash := get_root self in
  let! tree_info := get_tree_info self in
  ret (Doc.Build (Some (leaves o)) (Some (leaf_hashes o))
         (Some root_hash) (Some tree_info)).

(** [MerkleTree.deserialize(data)]: the new tree takes the lists of the
    dictionary as its own lists. *)
Definition deserialize (data : Doc.t) : M addr :=
  let! tree := new in
  let! data_leaves := lift (field (Doc.leaves data)) in
  let! o := the_tree tree in
  let! _ := assign tree
              (Instance data_leaves (leaf_hashes o) (root o) (_tree_cache o)) in
  let! data_leaf_hashes := lift (field (Doc.leaf_hashes data)) in
  let! o := the_tree tree in
  let! _ := assign tree
              (Instance (leaves o) data_leaf_hashes (root o) (_tree_cache o)) in
  (* rebuild tree structure *)
  let! hashes := the_list data_leaf_hashes in
  if bool_decide (hashes = []) then ret tree
  else let! _ := build_tree tree in ret tree.

End Shared.

(** A tree is serialized, a second tree is made from the dictionary, and a
    leaf is added to the second tree:
    [t = MerkleTree(); t.add_leaf("data1"); t.add_leaf("data2");
     t2 = MerkleTree.deserialize(t.serialize()); t2.add_leaf("data3")].
    The result is the pair [(t, t2)]. *)
Definition shared_lists_run : Shared.M (Shared.addr * Shared.addr) :=
  Shared.bind Shared.new (fun t =>
  Shared.bind (Shared.add_leaf "data1" t) (fun _ =>
  Shared.bind (Shared.add_leaf "data2" t) (fun _ =>
  Shared.bind (Shared.serialize t) (fun data =>
  Shared.bind (Shared.deserialize data) (fun t2 =>
  Shared.bind (Shared.add_leaf "data3" t2) (fun _ =>
  Shared.ret (t, t2))))))).

(** * Properties *)

(** The proofs never look inside SHA-256; closed examples still compute. *)
Opaque _hash_data.

Ltac pair_induction l :=
  let IH := fresh "IH" in
  induction l as [l IH] using (induction_ltof1 _ (@length _));
  unfold ltof in IH;
  destruct l as [|?a [|?b ?rest]].

Lemma half_step (n : nat) : (S (S n) + 1) / 2 = S ((n + 1) / 2).
Proof.
  replace (S (S n) + 1) with (n + 1 + 1 * 2) by lia.
  rewrite Nat.div_add by lia. lia.
Qed.

Section Subscripts.
Context {A : Type}.
Implicit Types (l : list A) (i : nat).

Lemma getitem_nat l i x : l !! i = Some x -> getitem l (Z.of_nat i) = Ok x.
Proof.
  intros Hx. pose proof (lookup_lt_Some _ _ _ Hx) as Hlt.
  assert (Hneg : (Z.of_nat i <? 0)%Z = false) by (apply Z.ltb_ge; lia).
  assert (Hin : (len l <=? Z.of_nat i)%Z = false)
    by (apply Z.leb_gt; unfold len; lia).
  unfold getitem. rewrite Hneg. cbv zeta. rewrite Hneg, Hin.
  simpl. rewrite Nat2Z.id, Hx. reflexivity.
Qed.

Lemma getitem_app_r l1 l2 x : getitem (l1 ++ x :: l2) (len l1) = Ok x.
Proof. apply getitem_nat, list_lookup_middle. reflexivity. Qed.

Lemma len_app l1 l2 : len (l1 ++ l2) = (len l1 + len l2)%Z.
Proof. unfold len. rewrite length_app. lia. Qed.

Lemma len_nonneg l : (0 <= len l)%Z.
Proof. unfold len. lia. Qed.

End Subscripts.

(** ** The builder *)

Section Builder.
Import MerkleTree.

(** The pairing loop over a level is the reference pairing, on nodes. *)
Lemma pair_loop_from (rest pre : list MerkleNode.t) (k : nat) acc :
  length pre = 2 * k ->
  pair_loop (pre ++ rest)
    ((fun j => 0 + 2 * Z.of_nat j)%Z <$> seq k ((length rest + 1) / 2)) acc
  = Ok (acc ++ node_parents rest).
Proof.
  revert pre k acc. pair_induction rest; intros pre k acc Hpre.
  - simpl. rewrite app_nil_r. reflexivity.
  - assert (Hk : (0 + 2 * Z.of_nat k)%Z = len pre) by (unfold len; lia).
    assert (Hlast : (len pre + 1 <? len (pre ++ [a]))%Z = false)
      by (apply Z.ltb_ge; rewrite len_app; unfold len; simpl; lia).
    cbn [length Nat.add Nat.div Nat.divmod fst seq fmap list_fmap pair_loop].
    rewrite Hk, getitem_app_r. cbn [mbind outcome_bind].
    rewrite Hlast. reflexivity.
  - assert (Hk : (0 + 2 * Z.of_nat k)%Z = len pre) by (unfold len; lia).
    assert (Hpair : (len pre + 1 <? len (pre ++ a :: b :: rest))%Z = true)
      by (apply Z.ltb_lt; rewrite len_app; unfold len; simpl; lia).
    cbn [length]. rewrite half_step.
    cbn [seq fmap list_fmap pair_loop].
    rewrite Hk, getitem_app_r. cbn [mbind outcome_bind]. rewrite Hpair.
    replace (pre ++ a :: b :: rest) with ((pre ++ [a]) ++ b :: rest)
      by (rewrite <- app_assoc; reflexivity).
    replace (len pre + 1)%Z with (len (pre ++ [a]))
      by (rewrite len_app; reflexivity).
    rewrite getitem_app_r. cbn [mbind outcome_bind].
    replace ((pre ++ [a]) ++ b :: rest) with ((pre ++ [a; b]) ++ rest)
      by (rewrite <- !app_assoc; reflexivity).
    rewrite (IH rest) by (try rewrite length_app; simpl; lia).
    rewrite <- app_assoc. reflexivity.
Qed.

Lemma range_even (n : nat) :
  range 0 (Z.of_nat n) 2 = (fun j => 0 + 2 * Z.of_nat j)%Z <$> seq 0 ((n + 1) / 2).
Proof.
  unfold range. f_equal. f_equal.
  replace (Z.of_nat n - 0 + 2 - 1)%Z with (Z.of_nat (n + 1)) by lia.
  change 2%Z with (Z.of_nat 2).
  rewrite <- (Nat2Z.inj_div (n + 1) 2). apply Nat2Z.id.
Qed.

Lemma next_level_of_parents current_level :
  next_level_of current_level = Ok (node_parents current_level).
Proof.
  unfold next_level_of, len. rewrite range_even.
  apply (pair_loop_from current_level [] 0 []). reflexivity.
Qed.

End Builder.

(** ** The level decomposition *)

Section Levels.

Lemma node_levels_short ns : ¬ 1 < length ns -> node_levels ns = [ns].
Proof.
  intros Hn. rewrite node_levels_equation_1.
  destruct (decide (1 < length ns)); [contradiction|reflexivity].
Qed.

Lemma node_levels_long ns :
  1 < length ns -> node_levels ns = ns :: node_levels (node_parents ns).
Proof.
  intros Hn. rewrite node_levels_equation_1.
  destruct (decide (1 < length ns)); [reflexivity|contradiction].
Qed.

Lemma ref_levels_short hs : ¬ 1 < length hs -> ref_levels hs = [hs].
Proof.
  intros Hn. rewrite ref_levels_equation_1.
  destruct (decide (1 < length hs)); [contradiction|reflexivity].
Qed.

Lemma ref_levels_long hs :
  1 < length hs -> ref_levels hs = hs :: ref_levels (ref_parents hs).
Proof.
  intros Hn. rewrite ref_levels_equation_1.
  destruct (decide (1 < length hs)); [reflexivity|contradiction].
Qed.

Lemma node_levels_head ns : exists above, node_levels ns = ns :: above.
Proof.
  destruct (decide (1 < length ns)).
  - rewrite node_levels_long by assumption. eauto.
  - rewrite node_levels_short by assumption. eauto.
Qed.

Lemma hash_node_parents ns :
  MerkleNode.hash <$> node_parents ns = ref_parents (MerkleNode.hash <$> ns).
Proof.
  pair_induction ns; [reflexivity|reflexivity|].
  cbn [node_parents fmap list_fmap ref_parents]. f_equal.
  apply IH. simpl. lia.
Qed.

(** The cached node levels carry the reference hash levels. *)
Lemma hash_node_levels ns :
  fmap (M := list) MerkleNode.hash <$> node_levels ns
  = ref_levels (MerkleNode.hash <$> ns).
Proof.
  induction ns as [ns IH] using (induction_ltof1 _ (@length _)).
  unfold ltof in IH. destruct (decide (1 < length ns)) as [Hn|Hn].
  - rewrite node_levels_long, ref_levels_long
      by (rewrite ?length_fmap; assumption).
    cbn [fmap list_fmap]. f_equal. rewrite <- hash_node_parents. apply IH.
    rewrite node_parents_length. apply Nat.Div0.div_lt_upper_bound. lia.
  - rewrite node_levels_short, ref_levels_short
      by (rewrite ?length_fmap; assumption).
    reflexivity.
Qed.

Lemma map_seqZ_size {A} (start : Z) (xs : list A) :
  size (map_seqZ (M := gmap Z A) start xs) = length xs.
Proof.
  revert start. induction xs as [|x xs IH]; intros start; simpl.
  - apply map_size_empty.
  - rewrite map_size_insert_None by apply map_seqZ_cons_disjoint.
    rewrite IH. reflexivity.
Qed.

(** The last level has one node, unless there is no node at all. *)
Lemma node_levels_last ns :
  ns <> [] -> exists top, last (node_levels ns) = Some [top].
Proof.
  induction ns as [ns IH] using (induction_ltof1 _ (@length _)).
  unfold ltof in IH. intros Hne. destruct (decide (1 < length ns)) as [Hn|Hn].
  - rewrite node_levels_long by assumption.
    destruct (node_levels_head (node_parents ns)) as [above Habove].
    rewrite Habove, last_cons_cons, <- Habove. apply IH.
    + rewrite node_parents_length. apply Nat.Div0.div_lt_upper_bound. lia.
    + intros Hnil. apply (f_equal length) in Hnil.
      rewrite node_parents_length in Hnil. cbn [length] in Hnil.
      assert (1 <= (length ns + 1) / 2) by (apply Nat.div_le_lower_bound; lia).
      lia.
  - rewrite node_levels_short by assumption.
    destruct ns as [|top [|? ?]]; [congruence| |simpl in Hn; lia].
    exists top. reflexivity.
Qed.

End Levels.

Section BuilderLoop.
Import MerkleTree.

Lemma level_loop_short current_level level_index cache :
  ¬ 1 < length current_level ->
  level_loop current_level level_index cache = (Ok current_level, cache).
Proof.
  intros Hn. rewrite level_loop_equation_1.
  destruct (decide (1 < length current_level)); [contradiction|reflexivity].
Qed.

Lemma level_loop_long current_level level_index cache :
  1 < length current_level ->
  level_loop current_level level_index cache
  = level_loop (node_parents current_level) (level_index + 1)
      (<[(level_index + 1)%Z := node_parents current_level]> cache).
Proof.
  intros Hn. rewrite level_loop_equation_1.
  destruct (decide (1 < length current_level)); [|contradiction].
  pose proof (next_level_of_parents current_level) as Hparents. simpl.
  destruct (next_level_of current_level); [|discriminate].
  injection Hparents as ->. reflexivity.
Qed.

(** The loop stores every level above the one it starts from, and ends on
    the last level. *)
Lemma level_loop_levels current_level level_index cache :
  level_loop current_level level_index cache
  = (Ok (default current_level (last (node_levels current_level))),
     map_seqZ (level_index + 1) (tail (node_levels current_level)) ∪ cache).
Proof.
  revert level_index cache.
  induction current_level as [cl IH] using (induction_ltof1 _ (@length _)).
  unfold ltof in IH. intros li cache.
  destruct (decide (1 < length cl)) as [Hn|Hn].
  - rewrite level_loop_long, node_levels_long by assumption.
    rewrite IH
      by (rewrite node_parents_length; apply Nat.Div0.div_lt_upper_bound; lia).
    destruct (node_levels_head (node_parents cl)) as [above Habove].
    rewrite Habove. cbn [tail]. rewrite last_cons_cons.
    destruct (last (node_parents cl :: above)) as [top|] eqn:Hlast;
      [|apply last_None in Hlast; discriminate].
    cbn [default]. f_equal.
    change (li + 1 + 1)%Z with (Z.succ (li + 1)).
    rewrite map_seqZ_cons, <- insert_union_l.
    symmetry. apply insert_union_r, map_seqZ_cons_disjoint.
  - rewrite level_loop_short, node_levels_short by assumption.
    simpl. rewrite (left_id_L ∅ (∪)). reflexivity.
Qed.

End BuilderLoop.

(** ** What [build_tree] returns and leaves behind *)

Section BuildTree.
Import MerkleTree.

Lemma leaf_nodes_length self :
  length (leaves self) = length (leaf_hashes self) ->
  length (leaf_nodes self) = length (leaf_hashes self).
Proof.
  intros Hlen. unfold leaf_nodes. rewrite length_fmap, length_zip. lia.
Qed.

Lemma build_tree_result self :
  length (leaves self) = length (leaf_hashes self) ->
  build_tree self
  = (Ok (MerkleNode.hash (top_node self)),
     Build (leaves self) (leaf_hashes self) (Some (top_node self))
           (level_cache self ∪ _tree_cache self)).
Proof.
  intros Hlen. pose proof (leaf_nodes_length self Hlen) as Hnodes.
  destruct (decide (1 < length (leaf_hashes self))) as [Hbig|Hsmall].
  - assert (Hone : (len (leaf_hashes self) =? 1)%Z = false)
      by (apply Z.eqb_neq; unfold len; lia).
    assert (Hne : leaf_hashes self <> [])
      by (intros E; rewrite E in Hbig; simpl in Hbig; lia).
    destruct (node_levels_last (leaf_nodes self)) as [top Htop].
    { intros Hnil. rewrite Hnil in Hnodes. simpl in Hnodes. lia. }
    destruct (node_levels_head (leaf_nodes self)) as [above Habove].
    unfold build_tree, level_cache.
    rewrite bool_decide_eq_false_2, Hone by assumption.
    rewrite decide_True by assumption.
    fold (leaf_nodes self). rewrite level_loop_levels, Htop.
    assert (Htopnode : top_node self = top).
    { unfold top_node. rewrite Htop.
      destruct (leaf_hashes self) as [|h [|h' hs]];
        [congruence|simpl in Hbig; lia|reflexivity]. }
    rewrite Htopnode. cbn [default mbind outcome_bind].
    change (getitem [top] 0) with (Ok top).
    unfold set_root, set_cache. cbn [leaves leaf_hashes root _tree_cache].
    do 2 f_equal. rewrite Habove. cbn [tail]. rewrite map_seqZ_cons.
    rewrite <- insert_union_l.
    symmetry. apply insert_union_r, map_seqZ_cons_disjoint.
  - unfold build_tree, top_node, level_cache.
    rewrite decide_False by assumption. rewrite (left_id_L ∅ (∪)).
    destruct self as [ls hs r c]. cbn [leaves leaf_hashes root _tree_cache] in *.
    destruct hs as [|h [|h' hs]]; [reflexivity| |simpl in Hsmall; lia].
    destruct ls as [|d ls]; [discriminate|]. reflexivity.
Qed.

Lemma leaf_nodes_Dirty ls :
  MerkleNode.hash <$> leaf_nodes (Dirty ls) = H <$> ls.
Proof.
  unfold leaf_nodes, Dirty. simpl.
  induction ls as [|d ls IH]; simpl; [reflexivity|]. f_equal. apply IH.
Qed.

Lemma top_node_Dirty ls : MerkleNode.hash (top_node (Dirty ls)) = ref_root ls.
Proof.
  unfold top_node, ref_root.
  pose proof (leaf_nodes_Dirty ls) as Hhash.
  pose proof (hash_node_levels (leaf_nodes (Dirty ls))) as Hlevels.
  rewrite Hhash in Hlevels.
  destruct ls as [|d [|d' ls]]; [reflexivity|reflexivity|].
  cbn [Dirty leaf_hashes leaves fmap list_fmap].
  fold (Dirty (d :: d' :: ls)).
  change (H d :: H d' :: (H <$> ls)) with (H <$> d :: d' :: ls).
  rewrite <- Hlevels, fmap_last.
  destruct (node_levels_last (leaf_nodes (Dirty (d :: d' :: ls)))) as [top ->].
  { discriminate. }
  reflexivity.
Qed.

Lemma Built_eq ls :
  Built ls = Build ls (H <$> ls) (Some (top_node (Dirty ls)))
               (level_cache (Dirty ls)).
Proof.
  unfold Built. rewrite build_tree_result by apply eq_sym, length_fmap.
  simpl. rewrite (right_id_L ∅ (∪)). reflexivity.
Qed.

Lemma build_tree_Dirty ls : build_tree (Dirty ls) = (Ok (ref_root ls), Built ls).
Proof.
  rewrite Built_eq, build_tree_result by apply eq_sym, length_fmap.
  rewrite top_node_Dirty. simpl. rewrite (right_id_L ∅ (∪)). reflexivity.
Qed.

Lemma build_tree_Built ls : build_tree (Built ls) = (Ok (ref_root ls), Built ls).
Proof.
  rewrite Built_eq, build_tree_result by apply eq_sym, length_fmap.
  change (top_node (Build ls (H <$> ls) _ _)) with (top_node (Dirty ls)).
  change (level_cache (Build ls (H <$> ls) _ _)) with (level_cache (Dirty ls)).
  rewrite top_node_Dirty. simpl. rewrite (idemp_L (∪)). reflexivity.
Qed.

Lemma get_root_Dirty ls : get_root (Dirty ls) = (Ok (ref_root ls), Built ls).
Proof. unfold get_root. simpl. apply build_tree_Dirty. Qed.

Lemma get_root_Built ls : get_root (Built ls) = (Ok (ref_root ls), Built ls).
Proof.
  unfold get_root. rewrite Built_eq. simpl. rewrite top_node_Dirty. reflexivity.
Qed.

End BuildTree.

(** ** Standalone verification is the fold of the specification *)

Section Verify.
Import MerkleProof.

Lemma verify_loop_fold directions (hashes : list string) (k : nat) current :
  k + length hashes <= length directions ->
  verify_loop directions (Z.of_nat k) hashes current
  = Ok (foldl fold_step current (zip hashes (drop k directions))).
Proof.
  revert k current. induction hashes as [|h hashes IH]; intros k current Hlen.
  - reflexivity.
  - simpl in Hlen.
    destruct (lookup_lt_is_Some_2 directions k) as [d Hd]; [lia|].
    cbn [verify_loop]. rewrite (getitem_nat _ _ _ Hd). cbn [mbind outcome_bind].
    replace (Z.of_nat k + 1)%Z with (Z.of_nat (S k)) by lia.
    rewrite IH by lia.
    rewrite (drop_S _ _ _ Hd). simpl.
    destruct (bool_decide (d = "left")); reflexivity.
Qed.

(** Past the end of the directions the subscript raises. *)
Lemma verify_loop_short directions (hashes : list string) (k : nat) current :
  length directions < k + length hashes ->
  length directions >= k ->
  verify_loop directions (Z.of_nat k) hashes current = Raise IndexError.
Proof.
  revert k current. induction hashes as [|h hashes IH]; intros k current Hlen Hk.
  - simpl in Hlen. lia.
  - simpl in Hlen. cbn [verify_loop].
    destruct (decide (k < length directions)) as [Hin|Hout].
    + destruct (lookup_lt_is_Some_2 directions k) as [d Hd]; [lia|].
      rewrite (getitem_nat _ _ _ Hd). cbn [mbind outcome_bind].
      replace (Z.of_nat k + 1)%Z with (Z.of_nat (S k)) by lia.
      apply IH; lia.
    + assert (Hneg : (Z.of_nat k <? 0)%Z = false) by (apply Z.ltb_ge; lia).
      assert (Hge : (len directions <=? Z.of_nat k)%Z = true)
        by (apply Z.leb_le; unfold len; lia).
      unfold getitem. rewrite Hneg. cbv zeta. rewrite Hneg, Hge. reflexivity.
Qed.

Lemma verify_fold p :
  length (proof_hashes p) <= length (proof_directions p) ->
  verify p = Ok (spec_verify (leaf_hash p)
                   (zip (proof_hashes p) (proof_directions p)) (root_hash p)).
Proof.
  intros Hlen. unfold verify.
  rewrite (verify_loop_fold _ _ 0) by (simpl; lia). reflexivity.
Qed.

Lemma verify_short p :
  length (proof_directions p) < length (proof_hashes p) ->
  verify p = Raise IndexError.
Proof.
  intros Hlen. unfold verify.
  rewrite (verify_loop_short _ _ 0) by (simpl; lia). reflexivity.
Qed.

End Verify.

(** ** One step up the tree *)

Section Path.

Lemma half_skip (i : nat) : S (S i) / 2 = S (i / 2).
Proof.
  replace (S (S i)) with (i + 1 * 2) by lia.
  rewrite Nat.div_add by lia. lia.
Qed.

Lemma spec_sibling_skip a b rest i :
  spec_sibling (a :: b :: rest) (S (S i)) = spec_sibling rest i.
Proof.
  unfold spec_sibling. cbn [Nat.even lookup list_lookup].
  destruct (Nat.even i) eqn:Hev.
  - replace (S (S i) + 1) with (S (S (i + 1))) by lia. reflexivity.
  - destruct i as [|i]; [discriminate|].
    replace (S (S (S i)) - 1) with (S (S i)) by lia.
    replace (S i - 1) with i by lia. reflexivity.
Qed.

(** Folding a hash with its sibling gives its parent, at half the index. *)
Lemma fold_step_parent (hs : list string) (i : nat) current :
  hs !! i = Some current ->
  ref_parents hs !! (i / 2) = Some (fold_step current (spec_sibling hs i)).
Proof.
  revert i. pair_induction hs; intros i Hi.
  - discriminate.
  - destruct i as [|i]; [|destruct i; discriminate].
    injection Hi as <-. reflexivity.
  - destruct i as [|[|i]].
    + injection Hi as <-. reflexivity.
    + injection Hi as <-. reflexivity.
    + rewrite half_skip, spec_sibling_skip. cbn [ref_parents].
      apply (IH rest); [simpl; lia|exact Hi].
Qed.

Lemma ref_levels_head hs : exists above, ref_levels hs = hs :: above.
Proof.
  destruct (decide (1 < length hs)).
  - rewrite ref_levels_long by assumption. eauto.
  - rewrite ref_levels_short by assumption. eauto.
Qed.

Lemma below_root_long hs :
  1 < length hs ->
  below_root (ref_levels hs) = hs :: below_root (ref_levels (ref_parents hs)).
Proof.
  intros Hn. rewrite ref_levels_long by assumption.
  destruct (ref_levels_head (ref_parents hs)) as [above ->]. reflexivity.
Qed.

(** Folding a leaf hash along its path arrives at the top of the levels. *)
Lemma fold_path_top (hs : list string) (i : nat) current :
  hs !! i = Some current ->
  last (ref_levels hs)
  = Some [foldl fold_step current (spec_path (below_root (ref_levels hs)) i)].
Proof.
  revert i current.
  induction hs as [hs IH] using (induction_ltof1 _ (@length _)).
  unfold ltof in IH. intros i current Hi.
  destruct (decide (1 < length hs)) as [Hn|Hn].
  - rewrite below_root_long by assumption.
    rewrite ref_levels_long by assumption.
    destruct (ref_levels_head (ref_parents hs)) as [above Habove].
    rewrite Habove, last_cons_cons, <- Habove.
    cbn [spec_path foldl].
    apply IH; [|apply fold_step_parent, Hi].
    rewrite ref_parents_length. apply Nat.Div0.div_lt_upper_bound. lia.
  - rewrite ref_levels_short by assumption.
    destruct hs as [|h [|? ?]]; [discriminate| |simpl in Hn; lia].
    destruct i; [|destruct i; discriminate].
    injection Hi as <-. reflexivity.
Qed.

Lemma ref_root_top (leaf_data : list string) top :
  leaf_data <> [] ->
  last (ref_levels (H <$> leaf_data)) = Some [top] ->
  ref_root leaf_data = top.
Proof.
  intros Hne Hlast. unfold ref_root.
  destruct leaf_data as [|d [|d' ls]]; [congruence| |].
  - cbn [fmap list_fmap] in *.
    rewrite ref_levels_short in Hlast by (simpl; lia).
    injection Hlast as <-. reflexivity.
  - cbn [fmap list_fmap] in *. rewrite Hlast. reflexivity.
Qed.

(** A leaf hash folded along its reference path gives the reference root. *)
Lemma fold_path_root (leaf_data : list string) (i : nat) d :
  leaf_data !! i = Some d ->
  foldl fold_step (H d)
    (spec_path (below_root (ref_levels (H <$> leaf_data))) i)
  = ref_root leaf_data.
Proof.
  intros Hi. symmetry. apply ref_root_top.
  - intros ->. discriminate.
  - apply fold_path_top. rewrite list_lookup_fmap, Hi. reflexivity.
Qed.

Lemma spec_path_length levels i : length (spec_path levels i) = length levels.
Proof.
  revert i. induction levels as [|l levels IH]; intros i; simpl; [reflexivity|].
  rewrite IH. reflexivity.
Qed.

End Path.

(** ** The proof generator walks the reference path *)

Section ProofGenerator.
Import MerkleTree.

Lemma even_of_nat (i : nat) : (Z.of_nat i mod 2 =? 0)%Z = Nat.even i.
Proof.
  destruct (Nat.even i) eqn:Hev.
  - apply Nat.even_spec in Hev as [k ->]. apply Z.eqb_eq.
    rewrite Nat2Z.inj_mul, Z.mul_comm. apply Z.mod_mul. lia.
  - apply Z.eqb_neq. rewrite <- Nat.negb_odd in Hev.
    apply negb_false_iff, Nat.odd_spec in Hev as [k ->].
    rewrite Nat2Z.inj_add, Nat2Z.inj_mul, Z.add_comm, Z.mul_comm.
    rewrite Z.mod_add by lia. discriminate.
Qed.

Lemma half_of_nat (i : nat) : (Z.of_nat i / 2)%Z = Z.of_nat (i / 2).
Proof. change 2%Z with (Z.of_nat 2). symmetry. apply Nat2Z.inj_div. Qed.

Lemma half_lt (i n : nat) : i < n -> i / 2 < (n + 1) / 2.
Proof.
  intros Hi. apply Nat.Div0.div_lt_upper_bound.
  pose proof (Nat.div_mod_eq (n + 1) 2) as Hdiv.
  pose proof (Nat.mod_upper_bound (n + 1) 2). lia.
Qed.

Lemma proof_loop_step cache level levels' ph pd (i : nat) ns :
  cache !! level = Some ns ->
  i < length ns ->
  proof_loop cache (level :: levels') ph pd (Z.of_nat i)
  = proof_loop cache levels'
      (ph ++ [(spec_sibling (MerkleNode.hash <$> ns) i).1])
      (pd ++ [(spec_sibling (MerkleNode.hash <$> ns) i).2])
      (Z.of_nat (i / 2)).
Proof.
  intros Hlevel Hi. cbn [proof_loop]. unfold dict_getitem. rewrite Hlevel.
  cbn [mbind outcome_bind]. rewrite even_of_nat, half_of_nat.
  destruct (lookup_lt_is_Some_2 ns i Hi) as [own Hown].
  unfold spec_sibling. rewrite !list_lookup_fmap, Hown. cbn [fmap option_fmap option_map default].
  destruct (Nat.even i) eqn:Hev.
  - replace (Z.of_nat i + 1)%Z with (Z.of_nat (i + 1)) by lia.
    destruct (decide (i + 1 < length ns)) as [Hin|Hout].
    + destruct (lookup_lt_is_Some_2 ns (i + 1) Hin) as [sib Hsib].
      rewrite (proj2 (Z.ltb_lt _ _)) by (unfold len; lia).
      rewrite (getitem_nat _ _ _ Hsib), Hsib. reflexivity.
    + rewrite (proj2 (Z.ltb_ge _ _)) by (unfold len; lia).
      rewrite (getitem_nat _ _ _ Hown).
      rewrite (proj2 (lookup_ge_None ns (i + 1))) by lia. reflexivity.
  - destruct i as [|i]; [discriminate|].
    replace (Z.of_nat (S i) - 1)%Z with (Z.of_nat i) by lia.
    replace (S i - 1) with i by lia.
    destruct (lookup_lt_is_Some_2 ns i) as [sib Hsib]; [lia|].
    rewrite (proj2 (Z.ltb_lt _ _)) by (unfold len; lia).
    rewrite (getitem_nat _ _ _ Hsib), Hsib. reflexivity.
Qed.

Lemma node_below_root_long ns :
  1 < length ns ->
  below_root (node_levels ns) = ns :: below_root (node_levels (node_parents ns)).
Proof.
  intros Hn. rewrite node_levels_long by assumption.
  destruct (node_levels_head (node_parents ns)) as [above ->]. reflexivity.
Qed.

Lemma proof_loop_levels cache ns (j : nat) ph pd (i : nat) :
  i < length ns ->
  (forall k level, below_root (node_levels ns) !! k = Some level ->
                   cache !! Z.of_nat (j + k) = Some level) ->
  proof_loop cache (Z.of_nat <$> seq j (length (below_root (node_levels ns))))
    ph pd (Z.of_nat i)
  = Ok (ph ++ (spec_path (below_root (ref_levels (MerkleNode.hash <$> ns))) i).*1,
        pd ++ (spec_path (below_root (ref_levels (MerkleNode.hash <$> ns))) i).*2).
Proof.
  revert j ph pd i.
  induction ns as [ns IH] using (induction_ltof1 _ (@length _)).
  unfold ltof in IH. intros j ph pd i Hi Hcache.
  destruct (decide (1 < length ns)) as [Hn|Hn].
  - rewrite node_below_root_long in * by assumption.
    rewrite below_root_long by (rewrite length_fmap; assumption).
    cbn [length seq fmap list_fmap spec_path].
    rewrite (proof_loop_step _ _ _ _ _ _ ns);
      [|rewrite <- (Hcache 0 ns eq_refl); f_equal; lia|assumption].
    rewrite <- hash_node_parents.
    rewrite IH.
    + rewrite <- !app_assoc. reflexivity.
    + rewrite node_parents_length. apply Nat.Div0.div_lt_upper_bound. lia.
    + rewrite node_parents_length. apply half_lt, Hi.
    + intros k level Hk. rewrite <- (Hcache (S k) level Hk). f_equal. lia.
  - rewrite node_levels_short by assumption.
    rewrite ref_levels_short by (rewrite length_fmap; assumption).
    simpl. rewrite !app_nil_r. reflexivity.
Qed.

Lemma range_count (n : nat) : range 0 (Z.of_nat n) 1 = Z.of_nat <$> seq 0 n.
Proof.
  unfold range. rewrite Z.div_1_r.
  replace (Z.to_nat (Z.of_nat n - 0 + 1 - 1)) with n by lia.
  apply list_fmap_ext. intros ? k ?. lia.
Qed.

Lemma below_root_length {A} (levels : list A) :
  length (below_root levels) = length levels - 1.
Proof.
  unfold below_root. rewrite removelast_firstn_len, length_take. lia.
Qed.

Lemma below_root_lookup {A} (levels : list A) k level :
  below_root levels !! k = Some level -> levels !! k = Some level.
Proof.
  unfold below_root. rewrite removelast_firstn_len.
  intros Hk. apply lookup_take_Some in Hk. apply Hk.
Qed.

End ProofGenerator.

(** ** Proof generation on a tree *)

Section GetProof.
Import MerkleTree.

Lemma get_proof_by_index_out self (leaf_index : Z) :
  (leaf_index < 0 \/ len (leaf_hashes self) <= leaf_index)%Z ->
  get_proof_by_index leaf_index self = (Ok None, self).
Proof.
  intros Hout. unfold get_proof_by_index.
  destruct (Z.ltb_spec leaf_index 0); [reflexivity|].
  destruct (Z.leb_spec (len (leaf_hashes self)) leaf_index); [reflexivity|lia].
Qed.

Lemma Built_cache_size ls :
  1 < length ls ->
  _tree_cache (Built ls) = map_seqZ 0 (node_levels (leaf_nodes (Dirty ls))).
Proof.
  intros Hn. rewrite Built_eq. unfold level_cache. simpl.
  rewrite decide_True by (rewrite length_fmap; assumption). reflexivity.
Qed.

Lemma get_proof_by_index_in self ls (i : nat) d :
  get_root self = (Ok (ref_root ls), Built ls) ->
  leaf_hashes self = H <$> ls ->
  ls !! i = Some d ->
  get_proof_by_index (Z.of_nat i) self = (Ok (Some (spec_proof ls i)), Built ls).
Proof.
  intros Hroot Hhashes Hi.
  pose proof (lookup_lt_Some _ _ _ Hi) as Hlt.
  assert (Hhash : (H <$> ls) !! i = Some (H d))
    by (rewrite list_lookup_fmap, Hi; reflexivity).
  unfold get_proof_by_index, spec_proof. rewrite Hhashes.
  rewrite (proj2 (Z.ltb_ge (Z.of_nat i) 0)) by lia.
  rewrite (proj2 (Z.leb_gt (len (H <$> ls)) (Z.of_nat i)))
    by (unfold len; rewrite length_fmap; lia).
  cbn [orb]. unfold bind. rewrite Hroot, Hhash. cbn [default].
  destruct (decide (1 < length ls)) as [Hn|Hn].
  - rewrite Built_cache_size by assumption.
    rewrite Built_eq. cbn [leaf_hashes].
    rewrite (proj2 (Z.eqb_neq (len (H <$> ls)) 1))
      by (unfold len; rewrite length_fmap; lia).
    rewrite map_seqZ_size.
    destruct (node_levels_head (leaf_nodes (Dirty ls))) as [above Habove].
    replace (Z.of_nat (length (node_levels (leaf_nodes (Dirty ls)))) - 1)%Z
      with (Z.of_nat (length (below_root (node_levels (leaf_nodes (Dirty ls))))))
      by (rewrite below_root_length, Habove; simpl; lia).
    rewrite range_count. unfold lift.
    rewrite (proof_loop_levels _ _ 0).
    + rewrite leaf_nodes_Dirty. cbn [mbind outcome_bind app].
      rewrite (getitem_nat _ _ _ Hhash). reflexivity.
    + unfold leaf_nodes. simpl. rewrite length_fmap, length_zip, length_fmap. lia.
    + intros k level Hk. apply below_root_lookup in Hk.
      apply (lookup_map_seqZ_Some_inv 0). exact Hk.
  - destruct ls as [|d0 [|? ?]]; [discriminate| |simpl in Hn; lia].
    destruct i; [|destruct i; discriminate]. injection Hi as ->.
    rewrite Built_eq. cbn [leaf_hashes fmap list_fmap].
    rewrite ref_levels_short by (simpl; lia). reflexivity.
Qed.

End GetProof.

(** ** Every reachable tree is Dirty or Built *)

Section Lifecycle.
Import MerkleTree.

Lemma Built_leaves ls : leaves (Built ls) = ls.
Proof. rewrite Built_eq. reflexivity. Qed.

Lemma Built_leaf_hashes ls : leaf_hashes (Built ls) = H <$> ls.
Proof. rewrite Built_eq. reflexivity. Qed.

Lemma lifecycle_leaf_hashes self :
  lifecycle self -> leaf_hashes self = H <$> leaves self.
Proof. intros [ls|ls]; [reflexivity|]. rewrite Built_eq. reflexivity. Qed.

Lemma lifecycle_get_root self :
  lifecycle self ->
  get_root self = (Ok (ref_root (leaves self)), Built (leaves self)).
Proof.
  intros [ls|ls].
  - apply get_root_Dirty.
  - rewrite Built_leaves. apply get_root_Built.
Qed.

Lemma lifecycle_build_tree self :
  lifecycle self ->
  build_tree self = (Ok (ref_root (leaves self)), Built (leaves self)).
Proof.
  intros [ls|ls].
  - apply build_tree_Dirty.
  - rewrite Built_leaves. apply build_tree_Built.
Qed.

Lemma lifecycle_add_leaf self data :
  lifecycle self ->
  add_leaf data self = (Ok (H data), Dirty (leaves self ++ [data])).
Proof.
  intros Hself. unfold add_leaf, Dirty.
  rewrite (lifecycle_leaf_hashes self Hself), fmap_app. reflexivity.
Qed.

(** A subscript in range is a position of the list. *)
Lemma in_range_nat {A} (l : list A) (i : Z) :
  (0 <= i < len l)%Z -> exists k x, i = Z.of_nat k /\ l !! k = Some x.
Proof.
  intros Hi. unfold len in Hi.
  destruct (lookup_lt_is_Some_2 l (Z.to_nat i)) as [x Hx]; [lia|].
  exists (Z.to_nat i), x. split; [lia|exact Hx].
Qed.

Lemma lifecycle_get_proof_by_index_in self (i : nat) d :
  lifecycle self ->
  leaves self !! i = Some d ->
  get_proof_by_index (Z.of_nat i) self
  = (Ok (Some (spec_proof (leaves self) i)), Built (leaves self)).
Proof.
  intros Hself Hi.
  apply (get_proof_by_index_in self (leaves self) i d);
    auto using lifecycle_get_root, lifecycle_leaf_hashes.
Qed.

Lemma lifecycle_get_proof_by_index self (i : Z) :
  lifecycle self -> lifecycle (snd (get_proof_by_index i self)).
Proof.
  intros Hself.
  destruct (decide (0 <= i < len (leaves self))%Z) as [Hin|Hout].
  - destruct (in_range_nat _ _ Hin) as (k & d & -> & Hk).
    rewrite (lifecycle_get_proof_by_index_in self k d) by assumption.
    constructor.
  - rewrite get_proof_by_index_out; [assumption|].
    rewrite (lifecycle_leaf_hashes self Hself).
    unfold len in *. rewrite length_fmap. lia.
Qed.

(** [index] finds the first position, or raises [ValueError]. *)
Lemma index_first (l : list string) x :
  match index l x with
  | Ok i => exists k, i = Z.of_nat k /\ l !! k = Some x
                      /\ forall j, j < k -> l !! j <> Some x
  | Raise e => e = ValueError /\ x ∉ l
  end.
Proof.
  induction l as [|y l IH]; cbn [index].
  - split; [reflexivity|]. apply not_elem_of_nil.
  - case_bool_decide as Hy.
    + exists 0. subst y. split; [reflexivity|]. split; [reflexivity|].
      intros j Hj. lia.
    + destruct (index l x) as [i|e]; cbn [fmap outcome_fmap].
      * destruct IH as (k & -> & Hk & Hfirst). exists (S k).
        split; [lia|]. split; [exact Hk|].
        intros [|j] Hj; simpl; [congruence|]. apply Hfirst. lia.
      * destruct IH as [-> Hnot]. split; [reflexivity|].
        rewrite elem_of_cons. intros [->|Hin]; [congruence|contradiction].
Qed.

Lemma lifecycle_get_proof self leaf_data :
  lifecycle self -> lifecycle (snd (get_proof leaf_data self)).
Proof.
  intros Hself. unfold get_proof.
  pose proof (index_first (leaves self) leaf_data) as Hindex.
  destruct (index (leaves self) leaf_data) as [i|e].
  - apply lifecycle_get_proof_by_index, Hself.
  - destruct Hindex as [-> _]. exact Hself.
Qed.

Lemma lifecycle_verify_proof self proof :
  lifecycle self ->
  verify_proof proof self
  = (if bool_decide (MerkleProof.root_hash proof = ref_root (leaves self))
     then MerkleProof.verify proof else Ok false,
     Built (leaves self)).
Proof.
  intros Hself. unfold verify_proof, bind.
  rewrite (lifecycle_get_root self Hself).
  case_bool_decide; reflexivity.
Qed.

Lemma lifecycle_get_tree_info self :
  lifecycle self ->
  exists info, get_tree_info self = (Ok info, Built (leaves self))
               /\ TreeInfo.root_hash info = ref_root (leaves self).
Proof.
  intros Hself. unfold get_tree_info, bind.
  rewrite (lifecycle_get_root self Hself). eexists. split; reflexivity.
Qed.

Lemma lifecycle_serialize self :
  lifecycle self ->
  exists info,
    serialize self
    = (Ok (TreeDoc.Build (Some (leaves self)) (Some (H <$> leaves self))
             (Some (ref_root (leaves self))) (Some info)),
       Built (leaves self)).
Proof.
  intros Hself. unfold serialize, bind.
  rewrite (lifecycle_get_root self Hself).
  destruct (lifecycle_get_tree_info (Built (leaves self))) as (info & Hinfo & _);
    [constructor|].
  rewrite Built_leaves in Hinfo. rewrite Hinfo.
  rewrite (lifecycle_leaf_hashes self Hself). exists info. reflexivity.
Qed.

Lemma lifecycle_export_loop idx proofs self :
  lifecycle self -> lifecycle (snd (export_loop idx proofs self)).
Proof.
  revert proofs self. induction idx as [|i idx IH]; intros proofs self Hself.
  - exact Hself.
  - cbn [export_loop]. unfold bind at 1.
    pose proof (lifecycle_get_proof_by_index self i Hself) as Hnext.
    destruct (get_proof_by_index i self) as [[[proof|]|e] self']; simpl in Hnext.
    + unfold bind. destruct (getitem (leaves self') i); [|exact Hnext].
      apply IH, Hnext.
    + apply IH, Hnext.
    + exact Hnext.
Qed.

Lemma lifecycle_run c self : lifecycle self -> lifecycle (run c self).
Proof.
  intros Hself. destruct c; cbn [run].
  - rewrite lifecycle_add_leaf by assumption. constructor.
  - rewrite lifecycle_build_tree by assumption. constructor.
  - rewrite lifecycle_get_root by assumption. constructor.
  - apply lifecycle_get_proof, Hself.
  - apply lifecycle_get_proof_by_index, Hself.
  - rewrite lifecycle_verify_proof by assumption. constructor.
  - destruct (lifecycle_get_tree_info self Hself) as (info & -> & _).
    constructor.
  - destruct (lifecycle_serialize self Hself) as (info & ->). constructor.
  - apply lifecycle_export_loop, Hself.
  - unfold verify_evidence_inclusion.
    destruct (Evidence.get_hash evidence); [|exact Hself].
    case_bool_decide; [|exact Hself].
    destruct (index (leaf_hashes self) s); exact Hself.
Qed.

Lemma reachable_lifecycle self : reachable self -> lifecycle self.
Proof.
  induction 1 as [|c self _ IH].
  - apply (is_Dirty []).
  - apply lifecycle_run, IH.
Qed.

(** Conversely both states of every leaf sequence are reached. *)
Lemma reachable_Dirty ls : reachable (Dirty ls).
Proof.
  induction ls as [|d ls IH] using rev_ind.
  - apply reachable_new.
  - pose proof (reachable_call (Add_leaf d) _ IH) as Hstep.
    cbn [run] in Hstep.
    rewrite lifecycle_add_leaf in Hstep by constructor. exact Hstep.
Qed.

Lemma reachable_Built ls : reachable (Built ls).
Proof. apply (reachable_call Build_tree _ (reachable_Dirty ls)). Qed.

Lemma add_leaves_Dirty ls pre :
  foldl (fun tree evidence_hash => snd (add_leaf evidence_hash tree))
        (Dirty pre) ls
  = Dirty (pre ++ ls).
Proof.
  revert pre. induction ls as [|d ls IH]; intros pre; cbn [foldl].
  - rewrite app_nil_r. reflexivity.
  - rewrite lifecycle_add_leaf by constructor. cbn [snd Dirty leaves].
    rewrite IH, <- app_assoc. reflexivity.
Qed.

(** [create_evidence_tree] returns the Built tree of its hashes. *)
Lemma create_evidence_tree_Built ls : create_evidence_tree ls = Built ls.
Proof.
  unfold create_evidence_tree. change __init__ with (Dirty []).
  rewrite add_leaves_Dirty, build_tree_Dirty. reflexivity.
Qed.

End Lifecycle.

(** ** Completeness of generated proofs *)

Section Completeness.
Import MerkleTree.

Lemma spec_proof_verifies ls (k : nat) d :
  ls !! k = Some d -> MerkleProof.verify (spec_proof ls k) = Ok true.
Proof.
  intros Hk. rewrite verify_fold
    by (unfold spec_proof; cbn; rewrite !length_fmap; reflexivity).
  unfold spec_proof, spec_verify. cbn.
  rewrite zip_fst_snd, list_lookup_fmap, Hk. cbn.
  rewrite (fold_path_root ls k d Hk).
  rewrite bool_decide_eq_true_2 by reflexivity. reflexivity.
Qed.

Lemma lifecycle_get_proof_found self leaf_data :
  lifecycle self ->
  leaf_data ∈ leaves self ->
  exists k,
    leaves self !! k = Some leaf_data
    /\ (forall j, j < k -> leaves self !! j <> Some leaf_data)
    /\ get_proof leaf_data self
       = (Ok (Some (spec_proof (leaves self) k)), Built (leaves self)).
Proof.
  intros Hself Hin. unfold get_proof.
  pose proof (index_first (leaves self) leaf_data) as Hindex.
  destruct (index (leaves self) leaf_data) as [i|e].
  - destruct Hindex as (k & -> & Hk & Hfirst). exists k.
    split; [exact Hk|]. split; [exact Hfirst|].
    apply (lifecycle_get_proof_by_index_in self k leaf_data Hself Hk).
  - destruct Hindex as [_ Hnot]. contradiction.
Qed.

Lemma lifecycle_completeness self leaf_data :
  lifecycle self ->
  leaf_data ∈ leaves self ->
  exists proof self',
    get_proof leaf_data self = (Ok (Some proof), self')
    /\ MerkleProof.verify proof = Ok true
    /\ verify_proof proof self' = (Ok true, self').
Proof.
  intros Hself Hin.
  destruct (lifecycle_get_proof_found self leaf_data Hself Hin)
    as (k & Hk & _ & Hproof).
  exists (spec_proof (leaves self) k), (Built (leaves self)).
  split; [exact Hproof|].
  pose proof (spec_proof_verifies _ _ _ Hk) as Hverify.
  split; [exact Hverify|].
  rewrite lifecycle_verify_proof by constructor.
  rewrite !Built_leaves, Hverify.
  rewrite bool_decide_eq_true_2 by reflexivity. reflexivity.
Qed.

End Completeness.

(** * The claims *)

(** C1. For every leaf sequence, [get_root()] and [build_tree()] return the
    reference root: the hash of the empty string for no leaf, the leaf's hash
    for one leaf, and for two leaves or more the single hash of the last level
    of the bottom-up decomposition, where each level pairs adjacent hashes
    left to right as H(left || right) and an odd level pairs its last hash
    with itself. For ["data1"; "data2"; "data3"] the root is
    H(H(h1 || h2) || H(h3 || h3)). Every leaf sequence is the leaf store of
    a reachable tree. *)
Theorem C1_root_is_reference_root :
  (forall self, reachable self ->
     fst (MerkleTree.get_root self) = Ok (ref_root (MerkleTree.leaves self))
     /\ fst (MerkleTree.build_tree self)
        = Ok (ref_root (MerkleTree.leaves self)))
  /\ (forall leaf_data,
        exists self, reachable self /\ MerkleTree.leaves self = leaf_data)
  /\ ref_root [] = H ""
  /\ (forall d, ref_root [d] = H d)
  /\ (forall leaf_data, 1 < length leaf_data ->
        last (ref_levels (H <$> leaf_data)) = Some [ref_root leaf_data])
  /\ (forall hs, 1 < length hs ->
        ref_levels hs = hs :: ref_levels (ref_parents hs))
  /\ (forall hs, length hs <= 1 -> ref_levels hs = [hs])
  /\ (forall l r rest,
        ref_parents (l :: r :: rest) = H (l +:+ r) :: ref_parents rest)
  /\ (forall unpaired, ref_parents [unpaired] = [H (unpaired +:+ unpaired)])
  /\ ref_root ["data1"; "data2"; "data3"]
     = H (H (H "data1" +:+ H "data2") +:+ H (H "data3" +:+ H "data3")).
Proof.
  split.
  { intros self Hself. apply reachable_lifecycle in Hself.
    rewrite lifecycle_get_root, lifecycle_build_tree by assumption.
    split; reflexivity. }
  split.
  { intros ls. exists (Dirty ls). split; [apply reachable_Dirty|reflexivity]. }
  split; [reflexivity|]. split; [reflexivity|].
  split.
  { intros ls Hn.
    destruct ls as [|d [|d' ls]]; [simpl in Hn; lia|simpl in Hn; lia|].
    destruct (ref_levels_head (H <$> d :: d' :: ls)) as [above Habove].
    pose proof (fold_path_top (H <$> d :: d' :: ls) 0 (H d) eq_refl) as Htop.
    rewrite Htop. f_equal. f_equal. symmetry.
    apply ref_root_top; [discriminate|exact Htop]. }
  split; [intros hs Hn; apply ref_levels_long, Hn|].
  split; [intros hs Hn; apply ref_levels_short; lia|].
  split; [reflexivity|]. split; [reflexivity|].
  unfold ref_root. cbn [fmap list_fmap].
  rewrite ref_levels_long by (simpl; lia). cbn [ref_parents].
  rewrite ref_levels_long by (simpl; lia). cbn [ref_parents].
  rewrite ref_levels_short by (simpl; lia). reflexivity.
Qed.

Lemma C1_witness :
  reachable three_leaves
  /\ fst (MerkleTree.get_root three_leaves)
     = Ok "81f696d212cf349a57e26955a956ae9f057b647735fe80c669ad4ea6f48533d5".
Proof.
  assert (Hreach : reachable three_leaves)
    by (do 3 apply reachable_call; apply reachable_new).
  split; [exact Hreach|].
  destruct C1_root_is_reference_root as [Hroot _].
  destruct (Hroot three_leaves Hreach) as [-> _].
  vm_compute. reflexivity.
Defined.

(** C2. For every tree built by [add_leaf] calls and every leaf that was
    added, [get_proof(leaf)] returns a proof, the proof verifies on its own
    and the tree verifies it. *)
Theorem C2_proof_completeness self leaf_data :
  reachable self ->
  leaf_data ∈ MerkleTree.leaves self ->
  exists proof self',
    MerkleTree.get_proof leaf_data self = (Ok (Some proof), self')
    /\ MerkleProof.verify proof = Ok true
    /\ MerkleTree.verify_proof proof self' = (Ok true, self').
Proof.
  intros Hself Hin.
  apply lifecycle_completeness; [apply reachable_lifecycle, Hself|exact Hin].
Qed.

Lemma C2_witness :
  reachable three_leaves
  /\ "data3" ∈ MerkleTree.leaves three_leaves
  /\ exists proof self',
       MerkleTree.get_proof "data3" three_leaves = (Ok (Some proof), self')
       /\ MerkleProof.verify proof = Ok true
       /\ MerkleTree.verify_proof proof self' = (Ok true, self').
Proof.
  assert (Hreach : reachable three_leaves)
    by (do 3 apply reachable_call; apply reachable_new).
  assert (Hin : "data3" ∈ MerkleTree.leaves three_leaves)
    by (apply list_elem_of_lookup; exists 2; vm_compute; reflexivity).
  split; [exact Hreach|]. split; [exact Hin|].
  exact (C2_proof_completeness three_leaves "data3" Hreach Hin).
Defined.

(** C3. [MerkleProof.verify()] is the fold of the specification: from the
    leaf hash, each (sibling, direction) pair in order gives H(sibling ||
    current) for ["left"] and H(current || sibling) otherwise, and the result
    is compared with the root hash. [tree.verify_proof(proof)] returns true
    exactly when the proof's root hash is the tree's root and the standalone
    check returns true, so a proof carried with another root is rejected. *)
Theorem C3_verification_fold :
  (forall proof,
     length (MerkleProof.proof_hashes proof)
       <= length (MerkleProof.proof_directions proof) ->
     MerkleProof.verify proof
     = Ok (spec_verify (MerkleProof.leaf_hash proof)
             (zip (MerkleProof.proof_hashes proof)
                  (MerkleProof.proof_directions proof))
             (MerkleProof.root_hash proof)))
  /\ (forall current sibling direction,
        fold_step current (sibling, direction)
        = if bool_decide (direction = "left")
          then H (sibling +:+ current) else H (current +:+ sibling))
  /\ (forall self proof,
        fst (MerkleTree.verify_proof proof self) = Ok true
        <-> fst (MerkleTree.get_root self) = Ok (MerkleProof.root_hash proof)
            /\ MerkleProof.verify proof = Ok true)
  /\ (forall self proof expected_root,
        fst (MerkleTree.get_root self) = Ok expected_root ->
        MerkleProof.root_hash proof <> expected_root ->
        fst (MerkleTree.verify_proof proof self) = Ok false).
Proof.
  split; [exact verify_fold|]. split; [reflexivity|]. split.
  - intros self proof. unfold MerkleTree.verify_proof, MerkleTree.bind.
    destruct (MerkleTree.get_root self) as [[r|e] self']; cbn [fst].
    + case_bool_decide as Hr; cbn [fst MerkleTree.lift MerkleTree.ret].
      * subst r. split; [intros Hv; split; [reflexivity|exact Hv]|].
        intros [_ Hv]. exact Hv.
      * split; [discriminate|]. intros [[= Hr'] _]. congruence.
    + split; [discriminate|]. intros [? _]. discriminate.
  - intros self proof r Hroot Hne.
    unfold MerkleTree.verify_proof, MerkleTree.bind.
    destruct (MerkleTree.get_root self) as [[r'|e] self']; cbn [fst] in *;
      [|discriminate].
    injection Hroot as ->.
    rewrite bool_decide_eq_false_2 by assumption. reflexivity.
Qed.

Lemma C3_witness :
  length (MerkleProof.proof_hashes two_leaf_proof)
    <= length (MerkleProof.proof_directions two_leaf_proof)
  /\ MerkleProof.verify two_leaf_proof = Ok true.
Proof.
  assert (Hlen : length (MerkleProof.proof_hashes two_leaf_proof)
                 <= length (MerkleProof.proof_directions two_leaf_proof))
    by (simpl; lia).
  split; [exact Hlen|].
  destruct C3_verification_fold as [Hfold _].
  rewrite (Hfold two_leaf_proof Hlen). vm_compute. reflexivity.
Defined.

(** C4. On a tree of two leaves or more, [get_proof_by_index(i)] for a valid
    index walks the levels below the root: at each level the sibling is at
    index + 1 with direction ["right"] when the index is even and at index - 1
    with direction ["left"] when it is odd, the node's own hash stands in for
    a sibling out of range, one hash and one direction are appended, and the
    index is halved; the two lists have the same length, one entry per level
    below the root, from the leaves up. On a tree of one leaf both lists are
    empty. *)
Theorem C4_proof_generation :
  (forall self (i : nat),
     reachable self ->
     i < length (MerkleTree.leaves self) ->
     exists proof,
       fst (MerkleTree.get_proof_by_index (Z.of_nat i) self) = Ok (Some proof)
       /\ (let path :=
             spec_path (below_root (ref_levels (MerkleTree.leaf_hashes self))) i in
           MerkleProof.proof_hashes proof = path.*1
           /\ MerkleProof.proof_directions proof = path.*2)
       /\ length (MerkleProof.proof_hashes proof)
          = length (MerkleProof.proof_directions proof)
       /\ length (MerkleProof.proof_hashes proof)
          = length (ref_levels (MerkleTree.leaf_hashes self)) - 1
       /\ MerkleProof.leaf_index proof = Z.of_nat i
       /\ MerkleTree.leaf_hashes self !! i = Some (MerkleProof.leaf_hash proof)
       /\ MerkleProof.root_hash proof = ref_root (MerkleTree.leaves self)
       /\ (length (MerkleTree.leaves self) = 1 ->
           MerkleProof.proof_hashes proof = []
           /\ MerkleProof.proof_directions proof = []))
  /\ (forall level above index,
        spec_path (level :: above) index
        = spec_sibling level index :: spec_path above (index / 2))
  /\ (forall level index sibling,
        Nat.even index = true -> level !! (index + 1) = Some sibling ->
        spec_sibling level index = (sibling, "right"))
  /\ (forall level index own,
        Nat.even index = true -> level !! (index + 1) = None ->
        level !! index = Some own ->
        spec_sibling level index = (own, "right"))
  /\ (forall level index sibling,
        Nat.even index = false -> level !! (index - 1) = Some sibling ->
        spec_sibling level index = (sibling, "left")).
Proof.
  split.
  { intros self i Hself Hi. apply reachable_lifecycle in Hself.
    destruct (lookup_lt_is_Some_2 _ _ Hi) as [d Hd].
    rewrite (lifecycle_get_proof_by_index_in self i d Hself Hd).
    rewrite (lifecycle_leaf_hashes self Hself).
    exists (spec_proof (MerkleTree.leaves self) i). unfold spec_proof. cbn.
    split; [reflexivity|]. split; [split; reflexivity|].
    rewrite !length_fmap, spec_path_length, below_root_length.
    split; [reflexivity|]. split; [reflexivity|]. split; [reflexivity|].
    rewrite list_lookup_fmap, Hd. split; [reflexivity|]. split; [reflexivity|].
    intros Hone.
    destruct (MerkleTree.leaves self) as [|d0 [|? ?]]; try discriminate.
    cbn [fmap list_fmap]. rewrite ref_levels_short by (simpl; lia).
    split; reflexivity. }
  split; [reflexivity|].
  split; [intros level index sibling Hev Hs; unfold spec_sibling;
          rewrite Hev, Hs; reflexivity|].
  split; [intros level index own Hev Hs Ho; unfold spec_sibling;
          rewrite Hev, Hs, Ho; reflexivity|].
  intros level index sibling Hev Hs. unfold spec_sibling.
  rewrite Hev, Hs. reflexivity.
Qed.

Lemma C4_witness :
  reachable three_leaves
  /\ 2 < length (MerkleTree.leaves three_leaves)
  /\ exists proof,
       fst (MerkleTree.get_proof_by_index 2 three_leaves) = Ok (Some proof)
       /\ MerkleProof.proof_hashes proof
          = [H "data3"; H (H "data1" +:+ H "data2")]
       /\ MerkleProof.proof_directions proof = ["right"; "left"].
Proof.
  assert (Hreach : reachable three_leaves)
    by (do 3 apply reachable_call; apply reachable_new).
  assert (Hlen : 2 < length (MerkleTree.leaves three_leaves))
    by (vm_compute; lia).
  split; [exact Hreach|]. split; [exact Hlen|].
  destruct C4_proof_generation as [Hgen _].
  destruct (Hgen three_leaves 2 Hreach Hlen)
    as (proof & Hproof & [Hhashes Hdirections] & _).
  exists proof. split; [exact Hproof|].
  rewrite Hhashes, Hdirections. split; vm_compute; reflexivity.
Defined.

(** A tree that holds its two lists alone ([reachable]: one tree and its own
    methods). Its level cache, when it is not empty, is the level
    decomposition of its leaf store, and a cached root is the reference root
    of that store. [add_leaf] leaves the cache empty and the root cleared, so
    the next [get_root()] rebuilds and returns the root of the extended
    store. *)
Lemma cache_consistency_own_lists self :
  reachable self ->
  (MerkleTree._tree_cache self <> ∅ ->
   MerkleTree._tree_cache self = map_seqZ 0 (node_levels (leaf_nodes self)))
  /\ (forall node, MerkleTree.root self = Some node ->
        MerkleNode.hash node = ref_root (MerkleTree.leaves self))
  /\ lifecycle self
  /\ (forall data,
        let self' := snd (MerkleTree.add_leaf data self) in
        self' = Dirty (MerkleTree.leaves self ++ [data])
        /\ MerkleTree._tree_cache self' = ∅
        /\ MerkleTree.root self' = None
        /\ MerkleTree.leaves self' = MerkleTree.leaves self ++ [data]
        /\ MerkleTree.get_root self' = MerkleTree.build_tree self'
        /\ fst (MerkleTree.get_root self')
           = Ok (ref_root (MerkleTree.leaves self ++ [data]))).
Proof.
  intros Hself. apply reachable_lifecycle in Hself.
  split; [|split; [|split; [exact Hself|]]].
  - destruct Hself as [ls|ls]; [intros Hne; contradiction Hne; reflexivity|].
    rewrite Built_eq. cbn [MerkleTree._tree_cache]. unfold level_cache.
    cbn [Dirty MerkleTree.leaf_hashes].
    destruct (decide (1 < length (H <$> ls)));
      [|intros Hne; contradiction Hne; reflexivity].
    intros _. reflexivity.
  - destruct Hself as [ls|ls]; [discriminate|].
    rewrite Built_eq. cbn [MerkleTree.root MerkleTree.leaves].
    intros node [= <-]. apply top_node_Dirty.
  - intros data self'. subst self'.
    rewrite lifecycle_add_leaf by assumption. cbn [snd].
    split; [reflexivity|].
    split; [reflexivity|]. split; [reflexivity|]. split; [reflexivity|].
    split; [reflexivity|]. rewrite get_root_Dirty. reflexivity.
Qed.

Example cache_consistency_three_leaves :
  reachable three_leaves_built
  /\ MerkleTree._tree_cache three_leaves_built <> ∅
  /\ MerkleTree._tree_cache three_leaves_built
     = map_seqZ 0 (node_levels (leaf_nodes three_leaves_built))
  /\ MerkleTree.root (snd (MerkleTree.add_leaf "data4" three_leaves_built))
     = None.
Proof.
  assert (Hreach : reachable three_leaves_built)
    by (do 4 apply reachable_call; apply reachable_new).
  assert (Hne : MerkleTree._tree_cache three_leaves_built <> ∅).
  { intros Hempty.
    apply (f_equal (fun m => bool_decide (m !! 0%Z = None))) in Hempty.
    vm_compute in Hempty. discriminate. }
  destruct (cache_consistency_own_lists three_leaves_built Hreach)
    as (Hcache & _ & _ & Hadd).
  split; [exact Hreach|]. split; [exact Hne|]. split; [exact (Hcache Hne)|].
  apply (Hadd "data4").
Qed.

(** C5. The cache should agree with the leaf store in every state a program
    can reach, and no root computed before an append should be seen after
    it. [serialize()] puts the tree's own lists in its dictionary and
    [deserialize()] keeps them, so after [shared_lists_run] the two trees
    hold the same lists: [t2.add_leaf("data3")] has extended the leaf store
    of [t] and cleared the cache and the root of [t2] only. The tree [t]
    holds three leaves, its cache is not empty and is not the level
    decomposition of its leaf store, its root is the root of the first two
    leaves, and that is what [t.get_root()] returns. *)
Theorem C5_shared_lists_stale_root :
  exists s t t2 self,
    shared_lists_run Shared.nothing = Some (Ok (t, t2), s)
    /\ Shared.view s t = Some self
    /\ MerkleTree.leaves self = ["data1"; "data2"; "data3"]
    /\ MerkleTree._tree_cache self <> ∅
    /\ MerkleTree._tree_cache self
       <> map_seqZ 0 (node_levels (leaf_nodes self))
    /\ (exists node,
          MerkleTree.root self = Some node
          /\ MerkleNode.hash node = ref_root ["data1"; "data2"]
          /\ MerkleNode.hash node <> ref_root (MerkleTree.leaves self))
    /\ fst <$> Shared.get_root t s = Some (Ok (ref_root ["data1"; "data2"]))
    /\ ref_root ["data1"; "data2"] <> ref_root ["data1"; "data2"; "data3"].
Proof.
  eexists _, _, _, _.
  split; [vm_compute; reflexivity|].
  split; [vm_compute; reflexivity|].
  split; [reflexivity|].
  assert (Hroots : ref_root ["data1"; "data2"]
                   <> ref_root ["data1"; "data2"; "data3"]).
  { intros Heq.
    apply (f_equal (fun r => String.eqb r (ref_root ["data1"; "data2"])))
      in Heq.
    vm_compute in Heq. discriminate. }
  split.
  { intros Heq. apply (f_equal size) in Heq. vm_compute in Heq.
    discriminate. }
  split.
  { intros Heq. apply (f_equal size) in Heq. vm_compute in Heq.
    discriminate. }
  split.
  { eexists. split; [reflexivity|]. cbn [MerkleNode.hash MerkleTree.leaves].
    split; [vm_compute; reflexivity|].
    intros Heq. apply Hroots. rewrite <- Heq. vm_compute. reflexivity. }
  split; [vm_compute; reflexivity|exact Hroots].
Qed.

(** C6. [tree.verify_proof(proof)] should return a boolean for every proof.
    On a new tree, a proof that carries the tree's root, one sibling hash and
    no direction makes it raise [IndexError]; the module-level
    [verify_evidence_inclusion] answers false on the same proof. *)
Theorem C6_verify_proof_raises :
  length (MerkleProof.proof_directions malformed_proof)
    < length (MerkleProof.proof_hashes malformed_proof)
  /\ fst (MerkleTree.verify_proof malformed_proof MerkleTree.__init__)
     = Raise IndexError
  /\ verify_evidence_inclusion "" (MerkleProof.to_dict malformed_proof) (H "")
     = Ok false.
Proof.
  split; [simpl; lia|]. split; vm_compute; reflexivity.
Qed.

(** On any tree, the tree-bound check raises as soon as the root matches and
    a direction is missing. *)
Lemma verify_proof_raises self proof :
  fst (MerkleTree.get_root self) = Ok (MerkleProof.root_hash proof) ->
  length (MerkleProof.proof_directions proof)
    < length (MerkleProof.proof_hashes proof) ->
  fst (MerkleTree.verify_proof proof self) = Raise IndexError.
Proof.
  intros Hroot Hshort. unfold MerkleTree.verify_proof, MerkleTree.bind.
  destruct (MerkleTree.get_root self) as [[r|e] self']; cbn [fst] in *;
    [|discriminate].
  injection Hroot as ->. rewrite bool_decide_eq_true_2 by reflexivity.
  cbn [MerkleTree.lift fst]. apply verify_short, Hshort.
Qed.

(** C7. Serialising a tree and deserialising the document gives a tree with
    the same leaves and the same root, in which every leaf's proof verifies.
    [deserialize] does not read the document's [root_hash] entry: whatever
    is put there, the tree and its recomputed root are the same. *)
Theorem C7_round_trip :
  (forall self,
     reachable self ->
     exists doc self1 tree,
       MerkleTree.serialize self = (Ok doc, self1)
       /\ MerkleTree.deserialize doc = Ok tree
       /\ MerkleTree.leaves tree = MerkleTree.leaves self
       /\ fst (MerkleTree.get_root tree) = fst (MerkleTree.get_root self)
       /\ fst (MerkleTree.get_root tree)
          = Ok (ref_root (MerkleTree.leaves self))
       /\ (forall leaf_data,
             leaf_data ∈ MerkleTree.leaves self ->
             exists proof tree',
               MerkleTree.get_proof leaf_data tree = (Ok (Some proof), tree')
               /\ MerkleProof.verify proof = Ok true
               /\ MerkleTree.verify_proof proof tree' = (Ok true, tree'))
       /\ (forall tampered,
             MerkleTree.deserialize (TreeDoc.with_root_hash tampered doc)
             = Ok tree))
  /\ (forall doc tampered,
        MerkleTree.deserialize (TreeDoc.with_root_hash tampered doc)
        = MerkleTree.deserialize doc).
Proof.
  split; [|reflexivity].
  intros self Hself. apply reachable_lifecycle in Hself.
  destruct (lifecycle_serialize self Hself) as (info & Hdoc).
  set (ls := MerkleTree.leaves self) in *.
  assert (Htree : exists tree,
             MerkleTree.deserialize
               (TreeDoc.Build (Some ls) (Some (H <$> ls))
                  (Some (ref_root ls)) (Some info)) = Ok tree
             /\ lifecycle tree /\ MerkleTree.leaves tree = ls).
  { unfold MerkleTree.deserialize.
    cbn [field TreeDoc.leaves TreeDoc.leaf_hashes mbind outcome_bind
         MerkleTree.leaves MerkleTree.leaf_hashes MerkleTree.root
         MerkleTree._tree_cache MerkleTree.__init__].
    case_bool_decide.
    - exists (Dirty ls). repeat split. constructor.
    - fold (Dirty ls). rewrite build_tree_Dirty. exists (Built ls).
      split; [reflexivity|]. split; [constructor|apply Built_leaves]. }
  destruct Htree as (tree & Htree & Hlife & Hleaves).
  eexists _, _, tree. split; [exact Hdoc|]. split; [exact Htree|].
  split; [exact Hleaves|].
  rewrite (lifecycle_get_root tree Hlife), (lifecycle_get_root self Hself).
  rewrite Hleaves. split; [reflexivity|]. split; [reflexivity|].
  split; [|intros tampered; exact Htree].
  intros leaf_data Hin. apply lifecycle_completeness; [exact Hlife|].
  rewrite Hleaves. exact Hin.
Qed.

Lemma C7_witness :
  reachable three_leaves
  /\ exists doc tree,
       fst (MerkleTree.serialize three_leaves) = Ok doc
       /\ MerkleTree.deserialize (TreeDoc.with_root_hash (Some "00") doc)
          = Ok tree
       /\ fst (MerkleTree.get_root tree)
          = Ok "81f696d212cf349a57e26955a956ae9f057b647735fe80c669ad4ea6f48533d5".
Proof.
  assert (Hreach : reachable three_leaves)
    by (do 3 apply reachable_call; apply reachable_new).
  split; [exact Hreach|].
  destruct C7_round_trip as [Hround _].
  destruct (Hround three_leaves Hreach)
    as (doc & self1 & tree & Hdoc & _ & _ & _ & Hroot & _ & Htamper).
  exists doc, tree. rewrite Hdoc. split; [reflexivity|].
  split; [apply Htamper|]. rewrite Hroot. vm_compute. reflexivity.
Defined.

(** C8. The module-level [verify_evidence_inclusion(raw_value, proof,
    expected_root)] always returns a boolean. It returns true exactly when
    the dictionary has every field of a proof, the hash of the raw value is
    the proof's leaf hash, the proof's root hash is the expected root, and the
    proof verifies; so it returns false whenever the expected root is not the
    proof's root hash. *)
Theorem C8_evidence_inclusion evidence_hash proof expected_root :
  exists b,
    verify_evidence_inclusion evidence_hash proof expected_root = Ok b
    /\ (b = true <->
        exists merkle_proof,
          proof = MerkleProof.to_dict merkle_proof
          /\ MerkleProof.leaf_hash merkle_proof = H evidence_hash
          /\ MerkleProof.root_hash merkle_proof = expected_root
          /\ MerkleProof.verify merkle_proof = Ok true)
    /\ (ProofDict.root_hash proof <> Some expected_root -> b = false).
Proof.
  unfold verify_evidence_inclusion.
  destruct proof as [[lh|] [li|] [ph|] [pd|] [rh|]];
    cbn [field ProofDict.leaf_hash ProofDict.leaf_index ProofDict.proof_hashes
         ProofDict.proof_directions ProofDict.root_hash mbind outcome_bind
         try_except MerkleProof.leaf_hash MerkleProof.root_hash];
    try (exists false; split; [reflexivity|];
         split; [split; [discriminate|intros (p & [=] & _)]|reflexivity]).
  set (p := MerkleProof.Build lh li ph pd rh).
  case_bool_decide as Hleaf; [case_bool_decide as Hroot|].
  - destruct (MerkleProof.verify p) as [b|e] eqn:Hverify; cbn [try_except].
    + exists b. split; [reflexivity|]. split.
      * split.
        -- intros ->. exists p. repeat split; assumption.
        -- intros (q & [= -> -> -> -> ->] & _ & _ & Hq).
           destruct q. cbn in *. unfold p in Hverify. congruence.
      * intros Hne. subst rh. congruence.
    + exists false. split; [reflexivity|]. split.
      * split; [discriminate|].
        intros (q & [= -> -> -> -> ->] & _ & _ & Hq).
        destruct q. cbn in *. unfold p in Hverify. congruence.
      * reflexivity.
  - exists false. split; [reflexivity|]. split; [|reflexivity].
    split; [discriminate|].
    intros (q & [= -> -> -> -> ->] & _ & Hq & _). contradiction.
  - exists false. split; [reflexivity|]. split; [|reflexivity].
    split; [discriminate|].
    intros (q & [= -> -> -> -> ->] & Hq & _). contradiction.
Qed.

Lemma C8_witness :
  ProofDict.root_hash (MerkleProof.to_dict two_leaf_proof) <> Some "00"
  /\ verify_evidence_inclusion "data1" (MerkleProof.to_dict two_leaf_proof)
       "00" = Ok false
  /\ verify_evidence_inclusion "data1" invalid_dict "00" = Ok false.
Proof.
  assert (Hne : ProofDict.root_hash (MerkleProof.to_dict two_leaf_proof)
                <> Some "00").
  { intros Heq. apply (f_equal (fun o => bool_decide (o = Some "00"))) in Heq.
    vm_compute in Heq. discriminate. }
  split; [exact Hne|].
  destruct (C8_evidence_inclusion "data1" (MerkleProof.to_dict two_leaf_proof)
              "00") as (b & Hb & _ & Hfalse).
  rewrite Hb, (Hfalse Hne). split; [reflexivity|].
  vm_compute. reflexivity.
Defined.

(** C9. [get_proof(leaf_data)] never raises; it returns nothing exactly when
    the leaf store does not contain [leaf_data], and otherwise the proof of
    the first occurrence. [get_proof_by_index(i)] never raises; it returns
    nothing exactly when [i < 0] or [i >= leaf_count], so both at -1 and at
    the leaf count. *)
Theorem C9_lookup self :
  reachable self ->
  (forall leaf_data,
     (fst (MerkleTree.get_proof leaf_data self) = Ok None
      <-> leaf_data ∉ MerkleTree.leaves self)
     /\ exists found, fst (MerkleTree.get_proof leaf_data self) = Ok found)
  /\ (forall leaf_data (k : nat),
        MerkleTree.leaves self !! k = Some leaf_data ->
        (forall j, j < k -> MerkleTree.leaves self !! j <> Some leaf_data) ->
        MerkleTree.get_proof leaf_data self
        = MerkleTree.get_proof_by_index (Z.of_nat k) self
        /\ exists proof,
             fst (MerkleTree.get_proof leaf_data self) = Ok (Some proof)
             /\ MerkleProof.leaf_index proof = Z.of_nat k)
  /\ (forall i : Z,
        (fst (MerkleTree.get_proof_by_index i self) = Ok None
         <-> (i < 0 \/ len (MerkleTree.leaves self) <= i)%Z)
        /\ exists found,
             fst (MerkleTree.get_proof_by_index i self) = Ok found)
  /\ fst (MerkleTree.get_proof_by_index (-1) self) = Ok None
  /\ fst (MerkleTree.get_proof_by_index (len (MerkleTree.leaves self)) self)
     = Ok None.
Proof.
  intros Hself. apply reachable_lifecycle in Hself.
  assert (Hlen : len (MerkleTree.leaf_hashes self) = len (MerkleTree.leaves self)).
  { rewrite (lifecycle_leaf_hashes self Hself). unfold len.
    rewrite length_fmap. reflexivity. }
  assert (Hindex : forall i : Z,
            (fst (MerkleTree.get_proof_by_index i self) = Ok None
             <-> (i < 0 \/ len (MerkleTree.leaves self) <= i)%Z)
            /\ exists found,
                 fst (MerkleTree.get_proof_by_index i self) = Ok found).
  { intros i.
    destruct (decide (0 <= i < len (MerkleTree.leaves self))%Z) as [Hin|Hout].
    - destruct (in_range_nat _ _ Hin) as (k & d & -> & Hk).
      rewrite (lifecycle_get_proof_by_index_in self k d Hself Hk). cbn [fst].
      split; [split; [discriminate|lia]|eauto].
    - rewrite get_proof_by_index_out by lia. cbn [fst].
      split; [split; [lia|reflexivity]|eauto]. }
  split; [|split; [|split; [exact Hindex|split]]].
  - intros leaf_data.
    destruct (decide (leaf_data ∈ MerkleTree.leaves self)) as [Hin|Hnot].
    + destruct (lifecycle_get_proof_found self leaf_data Hself Hin)
        as (k & _ & _ & ->). cbn [fst].
      split; [split; [discriminate|contradiction]|eauto].
    + unfold MerkleTree.get_proof.
      pose proof (index_first (MerkleTree.leaves self) leaf_data) as Hfirst.
      destruct (index (MerkleTree.leaves self) leaf_data) as [i|e].
      * destruct Hfirst as (k & _ & Hk & _). contradiction Hnot.
        apply list_elem_of_lookup. eauto.
      * destruct Hfirst as [-> _]. cbn [fst].
        split; [split; [intros _; exact Hnot|reflexivity]|eauto].
  - intros leaf_data k Hk Hfirst.
    assert (Hin : leaf_data ∈ MerkleTree.leaves self)
      by (apply list_elem_of_lookup; eauto).
    destruct (lifecycle_get_proof_found self leaf_data Hself Hin)
      as (k' & Hk' & Hfirst' & Hproof).
    assert (k' = k) as ->.
    { destruct (Nat.lt_trichotomy k' k) as [Hlt|[Heq|Hgt]]; [|exact Heq|].
      - contradiction (Hfirst k' Hlt).
      - contradiction (Hfirst' k Hgt). }
    rewrite Hproof.
    rewrite (lifecycle_get_proof_by_index_in self k leaf_data Hself Hk).
    split; [reflexivity|]. eexists. split; reflexivity.
  - apply Hindex. lia.
  - apply Hindex. lia.
Qed.

Lemma C9_witness :
  reachable three_leaves
  /\ fst (MerkleTree.get_proof "data9" three_leaves) = Ok None
  /\ fst (MerkleTree.get_proof_by_index (-1) three_leaves) = Ok None
  /\ fst (MerkleTree.get_proof_by_index 3 three_leaves) = Ok None.
Proof.
  assert (Hreach : reachable three_leaves)
    by (do 3 apply reachable_call; apply reachable_new).
  split; [exact Hreach|].
  destruct (C9_lookup three_leaves Hreach) as (Hget & _ & _ & Hneg & Hcount).
  split; [|split; [exact Hneg|exact Hcount]].
  apply (Hget "data9"). intros Hin.
  apply list_elem_of_In in Hin. vm_compute in Hin.
  repeat (destruct Hin as [Hin|Hin]; [discriminate|]). exact Hin.
Defined.

(** The outcomes of the tree-bound [verify_evidence_inclusion], for any
    tree and any object. It never returns true and leaves the tree as it
    is. Given an object without [get_hash] it raises [AttributeError]. Given
    an object whose [get_hash()] returns [h], it returns false when [h] is
    not among the leaf hashes and raises [AttributeError] when it is,
    because [generate_proof] does not exist. *)
Lemma tree_bound_inclusion_outcomes self evidence :
  fst (MerkleTree.verify_evidence_inclusion evidence self) <> Ok true
  /\ snd (MerkleTree.verify_evidence_inclusion evidence self) = self
  /\ (Evidence.get_hash evidence = None ->
      fst (MerkleTree.verify_evidence_inclusion evidence self)
      = Raise AttributeError)
  /\ (forall h, Evidence.get_hash evidence = Some h ->
        h ∉ MerkleTree.leaf_hashes self ->
        fst (MerkleTree.verify_evidence_inclusion evidence self) = Ok false)
  /\ (forall h, Evidence.get_hash evidence = Some h ->
        h ∈ MerkleTree.leaf_hashes self ->
        fst (MerkleTree.verify_evidence_inclusion evidence self)
        = Raise AttributeError).
Proof.
  unfold MerkleTree.verify_evidence_inclusion.
  destruct (Evidence.get_hash evidence) as [h|].
  - pose proof (index_first (MerkleTree.leaf_hashes self) h) as Hfirst.
    case_bool_decide as Hin.
    + destruct (index (MerkleTree.leaf_hashes self) h) as [i|e].
      * cbn [fst snd]. split; [discriminate|]. split; [reflexivity|].
        split; [discriminate|].
        split; [intros ? [= <-] Hnot; contradiction|reflexivity].
      * destruct Hfirst as [_ Hnot]. contradiction.
    + cbn [fst snd]. split; [discriminate|]. split; [reflexivity|].
      split; [discriminate|].
      split; [reflexivity|intros ? [= <-] Hyes; contradiction].
  - cbn [fst snd]. split; [discriminate|]. split; [reflexivity|].
    split; [reflexivity|]. split; intros ? [=].
Qed.

Example tree_bound_inclusion_three_leaves :
  Evidence.get_hash (hashed_evidence (H "data2")) = Some (H "data2")
  /\ H "data2" ∈ MerkleTree.leaf_hashes three_leaves
  /\ fst (MerkleTree.verify_evidence_inclusion (hashed_evidence (H "data2"))
            three_leaves) = Raise AttributeError
  /\ fst (MerkleTree.verify_evidence_inclusion Evidence.ComplianceEvidence
            three_leaves) = Raise AttributeError.
Proof.
  assert (Hhash : Evidence.get_hash (hashed_evidence (H "data2"))
                  = Some (H "data2")) by reflexivity.
  assert (Hin : H "data2" ∈ MerkleTree.leaf_hashes three_leaves)
    by (apply list_elem_of_lookup; exists 1; reflexivity).
  split; [exact Hhash|]. split; [exact Hin|].
  destruct (tree_bound_inclusion_outcomes three_leaves
              (hashed_evidence (H "data2"))) as (_ & _ & _ & _ & Hpresent).
  split; [exact (Hpresent _ Hhash Hin)|].
  destruct (tree_bound_inclusion_outcomes three_leaves Evidence.ComplianceEvidence)
    as (_ & _ & Hnone & _).
  apply Hnone. reflexivity.
Qed.

(** C10. The tree-bound [verify_evidence_inclusion] should return false
    when the evidence's hash is not among the leaf hashes. On a new tree,
    where no hash is, a [ComplianceEvidence] makes it raise
    [AttributeError]: the method calls [evidence.get_hash()], and the class
    has [compute_hash] and no [get_hash]. The same happens on every tree,
    before the leaf hashes are looked at. *)
Theorem C10_get_hash_raises :
  MerkleTree.leaf_hashes MerkleTree.__init__ = []
  /\ fst (MerkleTree.verify_evidence_inclusion Evidence.ComplianceEvidence
            MerkleTree.__init__) = Raise AttributeError
  /\ fst (MerkleTree.verify_evidence_inclusion Evidence.ComplianceEvidence
            MerkleTree.__init__) <> Ok false
  /\ (forall self,
        fst (MerkleTree.verify_evidence_inclusion Evidence.ComplianceEvidence
               self) = Raise AttributeError).
Proof.
  split; [reflexivity|]. split; [reflexivity|]. split; [discriminate|].
  intros self. reflexivity.
Qed.

(** ** SHA-256 test vectors *)

Example sha256_empty :
  H "" = "e3b0c44298fc1c149afbf4c8996fb92427ae41e4649b934ca495991b7852b855".
Proof. vm_compute. reflexivity. Qed.

Example sha256_abc :
  H "abc" = "ba7816bf8f01cfea414140de5dae2223b00361a396177a9cb410ff61f20015ad".
Proof. vm_compute. reflexivity. Qed.

Example sha256_data1 :
  H "data1" = "5b41362bc82b7f3d56edc5a306db22105707d01ff4819e26faef9724a2d406c9".
Proof. vm_compute. reflexivity. Qed.

Example sha256_two_blocks :
  H "aaaaaaaaaaaaaaaaaaaaaaaaaaaaaaaaaaaaaaaaaaaaaaaaaaaaaaaa"
  = "b35439a4ac6f0948b6d6f9e3c6af0f5f590ce20f1bde7090ef7970686ec6738a".
Proof. vm_compute. reflexivity. Qed.

(** * Further properties *)

(** ** Digests *)

Section Digests.

Lemma string_length_of_list (l : list ascii) :
  String.length (string_of_list_ascii l) = length l.
Proof. induction l as [|c l IH]; simpl; [reflexivity|]. rewrite IH. reflexivity. Qed.

Lemma hex_digit_is_hex (d : Z) :
  (0 <= d < 16)%Z -> is_hex_char (SHA256.hex_digit d) = true.
Proof.
  intros Hd. unfold SHA256.hex_digit.
  assert (Hn : Z.to_nat d < 16) by lia.
  generalize dependent (Z.to_nat d). intros n Hn.
  do 16 (destruct n as [|n]; [reflexivity|]). lia.
Qed.

Lemma hex_word_length w : length (SHA256.hex_word w) = 8.
Proof. reflexivity. Qed.

Lemma hex_word_is_hex w : forallb is_hex_char (SHA256.hex_word w) = true.
Proof.
  unfold SHA256.hex_word. apply forallb_forall. intros c Hc.
  apply in_map_iff in Hc as (i & <- & _).
  apply hex_digit_is_hex, Z.mod_pos_bound. lia.
Qed.

Lemma hex_words_length ws :
  length (concat (map SHA256.hex_word ws)) = 8 * length ws.
Proof.
  induction ws as [|w ws IH]; [reflexivity|].
  cbn [map concat]. rewrite length_app, IH, hex_word_length. simpl. lia.
Qed.

Lemma compress_length h block :
  length h = 8 -> length (SHA256.compress h block) = 8.
Proof.
  intros Hh. unfold SHA256.compress.
  rewrite length_map, length_combine, Hh. reflexivity.
Qed.

Lemma blocks_length n bytes h :
  length h = 8 -> length (SHA256.blocks n bytes h) = 8.
Proof.
  revert bytes h. induction n as [|n IH]; intros bytes h Hh; simpl.
  - exact Hh.
  - apply IH, compress_length, Hh.
Qed.

Lemma hexdigest_is_digest msg : is_digest (SHA256.hexdigest msg).
Proof.
  unfold is_digest, SHA256.hexdigest, SHA256.digest.
  pose proof (blocks_length (length (SHA256.pad msg) / 64) (SHA256.pad msg)
                SHA256.H0 eq_refl) as Hlen.
  set (words := SHA256.blocks _ _ _) in *.
  rewrite string_length_of_list, list_ascii_of_string_of_list_ascii.
  split.
  - rewrite hex_words_length, Hlen. reflexivity.
  - apply forallb_forall. intros c Hc. apply in_concat in Hc as (w & Hw & Hc).
    apply in_map_iff in Hw as (x & <- & _).
    pose proof (hex_word_is_hex x) as Hx.
    rewrite forallb_forall in Hx. apply Hx, Hc.
Qed.

Transparent _hash_data.
Lemma hash_data_is_digest data : is_digest (_hash_data data).
Proof. apply hexdigest_is_digest. Qed.
Opaque _hash_data.

Lemma ref_parents_digests hs : Forall is_digest (ref_parents hs).
Proof.
  pair_induction hs; cbn [ref_parents].
  - constructor.
  - constructor; [apply hash_data_is_digest|constructor].
  - constructor; [apply hash_data_is_digest|]. apply IH. simpl. lia.
Qed.

Lemma ref_levels_top_digest hs top :
  Forall is_digest hs ->
  last (ref_levels hs) = Some [top] -> is_digest top.
Proof.
  revert top. induction hs as [hs IH] using (induction_ltof1 _ (@length _)).
  unfold ltof in IH. intros top Hhs.
  destruct (decide (1 < length hs)) as [Hn|Hn].
  - rewrite ref_levels_long by assumption.
    destruct (ref_levels_head (ref_parents hs)) as [above Habove].
    rewrite Habove, last_cons_cons, <- Habove.
    apply IH; [|apply ref_parents_digests].
    rewrite ref_parents_length. apply Nat.Div0.div_lt_upper_bound. lia.
  - rewrite ref_levels_short by assumption. cbn. intros [= ->].
    apply Forall_inv in Hhs. exact Hhs.
Qed.

Lemma ref_root_is_digest ls : is_digest (ref_root ls).
Proof.
  destruct ls as [|d ls].
  - apply hash_data_is_digest.
  - assert (Htop : last (ref_levels (H <$> d :: ls))
                   = Some [ref_root (d :: ls)]).
    { pose proof (fold_path_top (H <$> d :: ls) 0 (H d) eq_refl) as Htop.
      rewrite Htop. do 2 f_equal. symmetry.
      apply ref_root_top; [discriminate|exact Htop]. }
    apply (ref_levels_top_digest (H <$> d :: ls)); [|exact Htop].
    apply Forall_fmap, Forall_forall. intros x _. apply hash_data_is_digest.
Qed.

End Digests.

(** ** Roots and stored hashes are digests *)

(** X1. On every reachable tree [get_root()] returns 64 lowercase hex
    digits, so does every [add_leaf], and every stored leaf hash is one. *)
Theorem X1_hashes_are_digests self :
  reachable self ->
  (exists root_hash,
     fst (MerkleTree.get_root self) = Ok root_hash /\ is_digest root_hash)
  /\ (forall data, exists leaf_hash,
        fst (MerkleTree.add_leaf data self) = Ok leaf_hash
        /\ is_digest leaf_hash)
  /\ Forall is_digest (MerkleTree.leaf_hashes self).
Proof.
  intros Hself. apply reachable_lifecycle in Hself. split; [|split].
  - rewrite lifecycle_get_root by assumption.
    eexists. split; [reflexivity|apply ref_root_is_digest].
  - intros data. eexists. split; [reflexivity|apply hash_data_is_digest].
  - rewrite (lifecycle_leaf_hashes self Hself).
    apply Forall_fmap, Forall_forall. intros x _. apply hash_data_is_digest.
Qed.

Lemma X1_witness :
  reachable three_leaves
  /\ exists root_hash,
       fst (MerkleTree.get_root three_leaves) = Ok root_hash
       /\ String.length root_hash = 64.
Proof.
  assert (Hreach : reachable three_leaves)
    by (do 3 apply reachable_call; apply reachable_new).
  split; [exact Hreach|].
  destruct (X1_hashes_are_digests three_leaves Hreach)
    as ((root_hash & Hroot & Hlen & _) & _).
  exists root_hash. split; [exact Hroot|exact Hlen].
Defined.

(** ** [get_root] once built *)

Section RootAccessor.
Import MerkleTree.

Lemma build_tree_root self root_hash self' :
  build_tree self = (Ok root_hash, self') ->
  exists node, root self' = Some node /\ MerkleNode.hash node = root_hash.
Proof.
  unfold build_tree. case_bool_decide as Hempty.
  - intros [= <- <-]. eexists. split; reflexivity.
  - destruct (len (leaf_hashes self) =? 1)%Z.
    + destruct (_ ≫= _) as [node|e]; intros [= <- <-].
      eexists. split; reflexivity.
    + destruct (level_loop _ _ _) as [looped cache].
      destruct (_ ≫= _) as [node|e]; intros [= <- <-].
      eexists. split; reflexivity.
Qed.

End RootAccessor.

(** X2. Once [get_root()] has returned, calling it again returns the same
    root and changes nothing, whatever state the tree started from. *)
Theorem X2_get_root_idempotent self root_hash self' :
  MerkleTree.get_root self = (Ok root_hash, self') ->
  MerkleTree.get_root self' = (Ok root_hash, self')
  /\ MerkleTree.root self' <> None.
Proof.
  unfold MerkleTree.get_root at 1.
  destruct (MerkleTree.root self) as [node|] eqn:Hroot.
  - intros [= <- <-]. unfold MerkleTree.get_root. rewrite Hroot.
    split; [reflexivity|discriminate].
  - intros Hbuild. apply build_tree_root in Hbuild as (node & Hnode & <-).
    unfold MerkleTree.get_root. rewrite Hnode.
    split; [reflexivity|discriminate].
Qed.

Lemma X2_witness :
  MerkleTree.get_root MerkleTree.__init__
  = (Ok (H ""), Built [])
  /\ MerkleTree.get_root (Built []) = (Ok (H ""), Built []).
Proof.
  assert (Hfirst : MerkleTree.get_root MerkleTree.__init__
                   = (Ok (H ""), Built [])) by reflexivity.
  split; [exact Hfirst|].
  apply (X2_get_root_idempotent _ _ _ Hfirst).
Defined.

(** ** The leaf store only grows *)

Section Frame.
Import MerkleTree.

Lemma same_store_refl self : same_store self self.
Proof. split; reflexivity. Qed.


Lemma build_tree_frame self : same_store self (snd (build_tree self)).
Proof.
  unfold build_tree. case_bool_decide as Hempty; [split; reflexivity|].
  destruct (len (leaf_hashes self) =? 1)%Z.
  - destruct (_ ≫= _); split; reflexivity.
  - destruct (level_loop _ _ _) as [looped cache].
    destruct (_ ≫= _); split; reflexivity.
Qed.

Lemma get_root_frame self : same_store self (snd (get_root self)).
Proof.
  unfold get_root. destruct (root self); [apply same_store_refl|].
  apply build_tree_frame.
Qed.




Lemma get_tree_info_frame self :
  same_store self (snd (get_tree_info self)).
Proof.
  unfold get_tree_info, bind. pose proof (get_root_frame self) as Hframe.
  destruct (get_root self) as [[r|e] self']; exact Hframe.
Qed.



End Frame.

(** ** A tree alone with its lists

    In the store, a method that changes neither list does to the tree what
    it does to the tree read from the store; so does [add_leaf] on a tree
    whose two lists are two objects. *)

Section OwnLists.

Lemma reading_view {A} (m : MerkleTree.M A) s self tree :
  Shared.view s self = Some tree ->
  same_store tree (snd (m tree)) ->
  exists s',
    Shared.reading m self s = Some (fst (m tree), s')
    /\ Shared.lists s' = Shared.lists s
    /\ Shared.view s' self = Some (snd (m tree)).
Proof.
  unfold Shared.reading, Shared.view. intros Hview [Hleaves Hhashes].
  destruct (Shared.trees s !! self) as [o|] eqn:Ho; [|discriminate].
  simpl in *.
  destruct (Shared.lists s !! Shared.leaves o) as [data|] eqn:Hdata;
    [|discriminate].
  destruct (Shared.lists s !! Shared.leaf_hashes o) as [hashes|] eqn:Hh;
    [|discriminate].
  simpl in *. injection Hview as <-.
  destruct (m _) as [result tree'] eqn:Hm. cbn [fst snd] in *.
  eexists. split; [reflexivity|]. split; [reflexivity|].
  cbn [Shared.trees Shared.lists].
  rewrite list_lookup_insert_eq by (eapply lookup_lt_Some; eassumption).
  simpl. rewrite Hdata. simpl. rewrite Hh. simpl.
  destruct tree'. simpl in *. subst. reflexivity.
Qed.

Lemma add_leaf_view data s self o tree :
  Shared.trees s !! self = Some o ->
  Shared.leaves o <> Shared.leaf_hashes o ->
  Shared.view s self = Some tree ->
  exists s',
    Shared.add_leaf data self s
    = Some (fst (MerkleTree.add_leaf data tree), s')
    /\ Shared.view s' self = Some (snd (MerkleTree.add_leaf data tree)).
Proof.
  unfold Shared.view. intros Ho Hne Hview. rewrite Ho in Hview. simpl in Hview.
  destruct (Shared.lists s !! Shared.leaves o) as [ls|] eqn:Hls;
    [|discriminate].
  destruct (Shared.lists s !! Shared.leaf_hashes o) as [hs|] eqn:Hhs;
    [|discriminate].
  simpl in Hview. injection Hview as <-.
  unfold Shared.add_leaf, Shared.bind, Shared.the_tree, Shared.append,
    Shared.assign, Shared.ret.
  rewrite Ho. simpl. rewrite Hls. simpl.
  rewrite list_lookup_insert_ne by exact Hne. rewrite Hhs. simpl.
  rewrite Ho. simpl.
  eexists. split; [reflexivity|]. simpl.
  rewrite list_lookup_insert_eq by (eapply lookup_lt_Some; eassumption).
  simpl.
  rewrite (list_lookup_insert_ne _ (Shared.leaf_hashes o) (Shared.leaves o))
    by (intros Heq; apply Hne; symmetry; exact Heq).
  rewrite !list_lookup_insert_eq
    by (rewrite ?length_insert; eapply lookup_lt_Some; eassumption).
  reflexivity.
Qed.

Lemma get_root_view s self tree :
  Shared.view s self = Some tree ->
  exists s',
    Shared.get_root self s = Some (fst (MerkleTree.get_root tree), s')
    /\ Shared.lists s' = Shared.lists s
    /\ Shared.view s' self = Some (snd (MerkleTree.get_root tree)).
Proof. intros Hview. apply reading_view; [exact Hview|apply get_root_frame]. Qed.

Lemma build_tree_view s self tree :
  Shared.view s self = Some tree ->
  exists s',
    Shared.build_tree self s = Some (fst (MerkleTree.build_tree tree), s')
    /\ Shared.lists s' = Shared.lists s
    /\ Shared.view s' self = Some (snd (MerkleTree.build_tree tree)).
Proof.
  intros Hview. apply reading_view; [exact Hview|apply build_tree_frame].
Qed.

Lemma get_tree_info_view s self tree :
  Shared.view s self = Some tree ->
  exists s',
    Shared.get_tree_info self s
    = Some (fst (MerkleTree.get_tree_info tree), s')
    /\ Shared.lists s' = Shared.lists s
    /\ Shared.view s' self = Some (snd (MerkleTree.get_tree_info tree)).
Proof.
  intros Hview. apply reading_view; [exact Hview|apply get_tree_info_frame].
Qed.

End OwnLists.


(** X4. The two lists of the leaf store stay aligned on every reachable
    tree: the hash at a position is the hash of the data at that position. *)
Theorem X4_store_aligned self :
  reachable self ->
  length (MerkleTree.leaf_hashes self) = length (MerkleTree.leaves self)
  /\ forall (i : nat) data,
       MerkleTree.leaves self !! i = Some data ->
       MerkleTree.leaf_hashes self !! i = Some (H data).
Proof.
  intros Hself. apply reachable_lifecycle in Hself.
  rewrite (lifecycle_leaf_hashes self Hself). split.
  - apply length_fmap.
  - intros i data Hi. rewrite list_lookup_fmap, Hi. reflexivity.
Qed.

Lemma X4_witness :
  reachable three_leaves
  /\ MerkleTree.leaves three_leaves !! 1 = Some "data2"
  /\ MerkleTree.leaf_hashes three_leaves !! 1 = Some (H "data2").
Proof.
  assert (Hreach : reachable three_leaves)
    by (do 3 apply reachable_call; apply reachable_new).
  assert (Hleaf : MerkleTree.leaves three_leaves !! 1 = Some "data2")
    by reflexivity.
  split; [exact Hreach|]. split; [exact Hleaf|].
  destruct (X4_store_aligned three_leaves Hreach) as [_ Haligned].
  exact (Haligned 1 "data2" Hleaf).
Defined.

(** ** The size of a proof *)

Section ProofSize.

Lemma ref_levels_nonempty hs : 1 <= length (ref_levels hs).
Proof. destruct (ref_levels_head hs) as [above ->]. simpl. lia. Qed.

Lemma halves_bounds (n : nat) : 1 < n -> 1 <= (n + 1) / 2 /\ n <= 2 * ((n + 1) / 2) /\ 2 * ((n + 1) / 2) <= n + 1.
Proof.
  intros Hn. pose proof (Nat.div_mod_eq (n + 1) 2) as Hdiv.
  pose proof (Nat.mod_upper_bound (n + 1) 2). lia.
Qed.

(** With [k + 1] levels, the leaf count is above [2 ^ (k - 1)] and at most
    [2 ^ k]. *)
Lemma levels_bound hs :
  hs <> [] ->
  length hs <= 2 ^ (length (ref_levels hs) - 1)
  /\ (1 < length hs -> 2 ^ (length (ref_levels hs) - 2) < length hs).
Proof.
  induction hs as [hs IH] using (induction_ltof1 _ (@length _)).
  unfold ltof in IH. intros Hne.
  destruct (decide (1 < length hs)) as [Hn|Hn].
  - rewrite ref_levels_long by assumption. cbn [length].
    pose proof (halves_bounds _ Hn) as (Hpos & Hle & Hge).
    pose proof (ref_parents_length hs) as Hlen.
    pose proof (ref_levels_nonempty (ref_parents hs)) as Hlevels.
    destruct (IH (ref_parents hs)) as [Hup Hlow].
    { rewrite Hlen. apply Nat.Div0.div_lt_upper_bound. lia. }
    { intros Hnil. rewrite Hnil in Hlen. cbn [length] in Hlen. lia. }
    rewrite Hlen in *.
    set (m := (length hs + 1) / 2) in *.
    set (levels := length (ref_levels (ref_parents hs))) in *.
    replace (S levels - 1) with (S (levels - 1)) by lia.
    rewrite Nat.pow_succ_r'. split; [lia|]. intros _.
    replace (S levels - 2) with (levels - 1) by lia.
    destruct (decide (1 < m)) as [Hm|Hm].
    + specialize (Hlow Hm).
      assert (Hdeep : 2 <= levels).
      { subst levels. rewrite ref_levels_long by (rewrite Hlen; exact Hm).
        pose proof (ref_levels_nonempty (ref_parents (ref_parents hs))).
        simpl. lia. }
      replace (levels - 1) with (S (levels - 2)) by lia.
      rewrite Nat.pow_succ_r'. lia.
    + assert (Hone : levels = 1).
      { subst levels. rewrite ref_levels_short by (rewrite Hlen; exact Hm).
        reflexivity. }
      rewrite Hone. simpl. lia.
  - rewrite ref_levels_short by assumption.
    destruct hs as [|h [|? ?]]; [congruence| |simpl in Hn; lia].
    simpl. split; [lia|lia].
Qed.

End ProofSize.

(** X5. A proof has one sibling per level below the root, and that is the
    base-2 logarithm of the leaf count rounded up: with [k] siblings the
    tree has at most [2 ^ k] leaves and, unless it has a single leaf, more
    than [2 ^ (k - 1)]. *)
Theorem X5_proof_size self (i : nat) :
  reachable self ->
  i < length (MerkleTree.leaves self) ->
  exists proof,
    fst (MerkleTree.get_proof_by_index (Z.of_nat i) self) = Ok (Some proof)
    /\ length (MerkleProof.proof_directions proof)
       = length (MerkleProof.proof_hashes proof)
    /\ length (MerkleTree.leaves self)
       <= 2 ^ length (MerkleProof.proof_hashes proof)
    /\ (1 < length (MerkleTree.leaves self) ->
        2 ^ (length (MerkleProof.proof_hashes proof) - 1)
        < length (MerkleTree.leaves self)).
Proof.
  intros Hself Hi. apply reachable_lifecycle in Hself.
  destruct (lookup_lt_is_Some_2 _ _ Hi) as [d Hd].
  rewrite (lifecycle_get_proof_by_index_in self i d Hself Hd).
  exists (spec_proof (MerkleTree.leaves self) i). unfold spec_proof. cbn.
  rewrite !length_fmap, spec_path_length, below_root_length.
  split; [reflexivity|]. split; [reflexivity|].
  destruct (levels_bound (H <$> MerkleTree.leaves self)) as [Hup Hlow].
  { intros Hnil. apply (f_equal length) in Hnil.
    rewrite length_fmap in Hnil. simpl in Hnil. lia. }
  rewrite length_fmap in *.
  split; [exact Hup|].
  replace (length (ref_levels (H <$> MerkleTree.leaves self)) - 1 - 1)
    with (length (ref_levels (H <$> MerkleTree.leaves self)) - 2) by lia.
  exact Hlow.
Qed.

Lemma X5_witness :
  reachable three_leaves
  /\ 2 < length (MerkleTree.leaves three_leaves)
  /\ exists proof,
       fst (MerkleTree.get_proof_by_index 2 three_leaves) = Ok (Some proof)
       /\ length (MerkleTree.leaves three_leaves)
          <= 2 ^ length (MerkleProof.proof_hashes proof).
Proof.
  assert (Hreach : reachable three_leaves)
    by (do 3 apply reachable_call; apply reachable_new).
  assert (Hlen : 2 < length (MerkleTree.leaves three_leaves))
    by (vm_compute; lia).
  split; [exact Hreach|]. split; [exact Hlen|].
  destruct (X5_proof_size three_leaves 2 Hreach Hlen)
    as (proof & Hproof & _ & Hup & _).
  exists proof. split; [exact Hproof|exact Hup].
Defined.

(** ** What [get_tree_info] reports *)

Section TreeInfoReport.
Import MerkleTree.

Lemma node_levels_count ns :
  length (node_levels ns) = length (ref_levels (MerkleNode.hash <$> ns)).
Proof. rewrite <- hash_node_levels, length_fmap. reflexivity. Qed.

Lemma Built_cache ls : _tree_cache (Built ls) = level_cache (Dirty ls).
Proof. rewrite Built_eq. reflexivity. Qed.

Lemma Built_root ls : root (Built ls) = Some (top_node (Dirty ls)).
Proof. rewrite Built_eq. reflexivity. Qed.

Lemma get_tree_info_Dirty ls :
  get_tree_info (Dirty ls)
  = (Ok (TreeInfo.Build (len ls) (if decide (ls = []) then 0 else 1)
           (ref_root ls) true),
     Built ls).
Proof.
  unfold get_tree_info, bind. rewrite get_root_Dirty, Built_root.
  cbn [Dirty _tree_cache leaf_hashes].
  rewrite (bool_decide_eq_true_2 (Some _ <> None)) by discriminate.
  rewrite (bool_decide_eq_true_2 (∅ = ∅)) by reflexivity.
  unfold len. rewrite length_fmap.
  destruct ls; reflexivity.
Qed.

Lemma get_tree_info_Built ls :
  get_tree_info (Built ls)
  = (Ok (TreeInfo.Build (len ls)
           (if decide (ls = []) then 0
            else Z.of_nat (length (ref_levels (H <$> ls))))
           (ref_root ls) true),
     Built ls).
Proof.
  unfold get_tree_info, bind. rewrite get_root_Built.
  rewrite Built_cache, Built_leaf_hashes, Built_root.
  rewrite (bool_decide_eq_true_2 (Some _ <> None)) by discriminate.
  unfold len. rewrite length_fmap. unfold level_cache.
  cbn [Dirty leaf_hashes]. rewrite length_fmap.
  destruct (decide (1 < length ls)) as [Hn|Hn].
  - destruct (node_levels_head (leaf_nodes (Dirty ls))) as [above Habove].
    rewrite bool_decide_eq_false_2
      by (rewrite Habove; apply insert_non_empty).
    rewrite map_seqZ_size, node_levels_count, leaf_nodes_Dirty.
    destruct ls; [simpl in Hn; lia|reflexivity].
  - rewrite bool_decide_eq_true_2 by reflexivity.
    destruct ls as [|d [|? ?]]; [reflexivity| |simpl in Hn; lia].
    cbn [fmap list_fmap]. rewrite ref_levels_short by (simpl; lia).
    reflexivity.
Qed.

End TreeInfoReport.

(** X6. [get_tree_info()] on a reachable tree never raises, leaves the tree
    built, and reports the leaf count, the reference root and
    [is_built = True]. Its [tree_height] is read before the tree is rebuilt:
    on a built tree it is the number of levels (0 for no leaf), but on a
    tree that is not built it is 1 for any positive number of leaves. *)
Theorem X6_tree_info self :
  reachable self ->
  exists info,
    MerkleTree.get_tree_info self = (Ok info, Built (MerkleTree.leaves self))
    /\ TreeInfo.total_leaves info = len (MerkleTree.leaves self)
    /\ TreeInfo.root_hash info = ref_root (MerkleTree.leaves self)
    /\ TreeInfo.is_built info = true
    /\ (MerkleTree.leaves self = [] -> TreeInfo.tree_height info = 0%Z)
    /\ (MerkleTree.leaves self <> [] -> MerkleTree.root self = None ->
        TreeInfo.tree_height info = 1%Z)
    /\ (MerkleTree.leaves self <> [] -> MerkleTree.root self <> None ->
        TreeInfo.tree_height info
        = Z.of_nat (length (ref_levels (MerkleTree.leaf_hashes self)))).
Proof.
  intros Hself. apply reachable_lifecycle in Hself.
  destruct Hself as [ls|ls].
  - rewrite get_tree_info_Dirty. eexists. split; [reflexivity|].
    cbn [Dirty MerkleTree.leaves MerkleTree.root TreeInfo.total_leaves
         TreeInfo.root_hash TreeInfo.is_built TreeInfo.tree_height].
    repeat split; try reflexivity.
    + intros ->. reflexivity.
    + intros Hne _. destruct (decide (ls = [])); [contradiction|reflexivity].
    + intros _ Hroot. contradiction Hroot. reflexivity.
  - rewrite get_tree_info_Built, Built_leaves, Built_leaf_hashes.
    eexists. split; [reflexivity|].
    cbn [TreeInfo.total_leaves TreeInfo.root_hash TreeInfo.is_built
         TreeInfo.tree_height].
    repeat split; try reflexivity.
    + intros ->. reflexivity.
    + intros _ Hroot. rewrite Built_eq in Hroot. discriminate.
    + intros Hne _. destruct (decide (ls = [])); [contradiction|reflexivity].
Qed.

Lemma X6_witness :
  reachable three_leaves
  /\ MerkleTree.leaves three_leaves <> []
  /\ MerkleTree.root three_leaves = None
  /\ exists info,
       fst (MerkleTree.get_tree_info three_leaves) = Ok info
       /\ TreeInfo.tree_height info = 1%Z
       /\ TreeInfo.total_leaves info = 3%Z.
Proof.
  assert (Hreach : reachable three_leaves)
    by (do 3 apply reachable_call; apply reachable_new).
  assert (Hne : MerkleTree.leaves three_leaves <> []) by discriminate.
  assert (Hroot : MerkleTree.root three_leaves = None) by reflexivity.
  split; [exact Hreach|]. split; [exact Hne|]. split; [exact Hroot|].
  destruct (X6_tree_info three_leaves Hreach)
    as (info & Hinfo & Htotal & _ & _ & _ & Hdirty & _).
  exists info. rewrite Hinfo. split; [reflexivity|].
  split; [exact (Hdirty Hne Hroot)|]. rewrite Htotal. reflexivity.
Defined.

(** ** The endpoints *)

(** X7. [GET /merkle/root] on a reachable evidence tree always answers (no
    HTTP error): it returns the reference root, the leaf count and the number
    of levels of the tree (0 for no leaf), and leaves the tree built. Unlike
    a bare [get_tree_info()], the height is never stale, because the root is
    fetched first. *)
Theorem X7_merkle_root_endpoint evidence_tree :
  reachable evidence_tree ->
  exists body,
    get_merkle_root evidence_tree
    = (Response body, Built (MerkleTree.leaves evidence_tree))
    /\ MerkleRoot.root_hash body = ref_root (MerkleTree.leaves evidence_tree)
    /\ MerkleRoot.total_leaves body = len (MerkleTree.leaves evidence_tree)
    /\ MerkleRoot.tree_height body
       = (if decide (MerkleTree.leaves evidence_tree = []) then 0%Z
          else Z.of_nat (length (ref_levels
                                   (MerkleTree.leaf_hashes evidence_tree)))).
Proof.
  intros Hself. apply reachable_lifecycle in Hself.
  unfold get_merkle_root, MerkleTree.bind.
  rewrite (lifecycle_get_root _ Hself), get_tree_info_Built.
  rewrite (lifecycle_leaf_hashes _ Hself).
  eexists. split; [reflexivity|]. repeat split; reflexivity.
Qed.

Lemma X7_witness :
  reachable three_leaves
  /\ exists body,
       fst (get_merkle_root three_leaves) = Response body
       /\ MerkleRoot.total_leaves body = 3%Z
       /\ MerkleRoot.tree_height body = 3%Z.
Proof.
  assert (Hreach : reachable three_leaves)
    by (do 3 apply reachable_call; apply reachable_new).
  split; [exact Hreach|].
  destruct (X7_merkle_root_endpoint three_leaves Hreach)
    as (body & Hbody & _ & Htotal & Hheight).
  exists body. rewrite Hbody. split; [reflexivity|].
  rewrite Htotal, Hheight. split; vm_compute; reflexivity.
Defined.

(** X8. [GET /merkle/proof/{evidence_hash}] on a reachable evidence tree
    answers 404 exactly when the hash was never added, and otherwise returns
    the proof of its first occurrence with [verified = True]; it never
    answers 500. *)
Theorem X8_merkle_proof_endpoint evidence_tree evidence_hash :
  reachable evidence_tree ->
  (evidence_hash ∉ MerkleTree.leaves evidence_tree ->
   get_merkle_proof evidence_hash evidence_tree
   = (HTTPException 404 "Evidence hash not found in tree", evidence_tree))
  /\ (evidence_hash ∈ MerkleTree.leaves evidence_tree ->
      exists k : nat,
        MerkleTree.leaves evidence_tree !! k = Some evidence_hash
        /\ (forall j, j < k ->
              MerkleTree.leaves evidence_tree !! j <> Some evidence_hash)
        /\ get_merkle_proof evidence_hash evidence_tree
           = (Response
                (ProofResponse.Build
                   (MerkleProof.to_dict
                      (spec_proof (MerkleTree.leaves evidence_tree) k))
                   true),
              Built (MerkleTree.leaves evidence_tree))).
Proof.
  intros Hself. apply reachable_lifecycle in Hself. split.
  - intros Hnot. unfold get_merkle_proof, MerkleTree.get_proof.
    pose proof (index_first (MerkleTree.leaves evidence_tree) evidence_hash)
      as Hfirst.
    destruct (index _ _) as [i|e].
    + destruct Hfirst as (k & _ & Hk & _). contradiction Hnot.
      apply list_elem_of_lookup. eauto.
    + destruct Hfirst as [-> _]. reflexivity.
  - intros Hin.
    destruct (lifecycle_get_proof_found _ _ Hself Hin)
      as (k & Hk & Hfirst & Hproof).
    exists k. split; [exact Hk|]. split; [exact Hfirst|].
    unfold get_merkle_proof. rewrite Hproof.
    rewrite lifecycle_verify_proof by constructor.
    rewrite Built_leaves, (spec_proof_verifies _ _ _ Hk).
    rewrite bool_decide_eq_true_2 by reflexivity. reflexivity.
Qed.

Lemma X8_witness :
  reachable three_leaves
  /\ ("data9" ∉ MerkleTree.leaves three_leaves)
  /\ fst (get_merkle_proof "data9" three_leaves)
     = HTTPException 404 "Evidence hash not found in tree"
  /\ ("data2" ∈ MerkleTree.leaves three_leaves)
  /\ exists body,
       fst (get_merkle_proof "data2" three_leaves) = Response body
       /\ ProofResponse.verified body = true.
Proof.
  assert (Hreach : reachable three_leaves)
    by (do 3 apply reachable_call; apply reachable_new).
  assert (Hnot : "data9" ∉ MerkleTree.leaves three_leaves).
  { intros Hin. apply list_elem_of_In in Hin. vm_compute in Hin.
    repeat (destruct Hin as [Hin|Hin]; [discriminate|]). exact Hin. }
  assert (Hin : "data2" ∈ MerkleTree.leaves three_leaves)
    by (apply list_elem_of_lookup; exists 1; reflexivity).
  destruct (X8_merkle_proof_endpoint three_leaves "data9" Hreach)
    as [Hmissing _].
  destruct (X8_merkle_proof_endpoint three_leaves "data2" Hreach)
    as [_ Hfound].
  split; [exact Hreach|]. split; [exact Hnot|].
  split; [rewrite (Hmissing Hnot); reflexivity|]. split; [exact Hin|].
  destruct (Hfound Hin) as (k & _ & _ & Hbody).
  eexists. rewrite Hbody. split; reflexivity.
Defined.

(** ** Every position has a proof that verifies *)

Lemma spec_proof_leaf_hash ls (k : nat) d :
  ls !! k = Some d -> MerkleProof.leaf_hash (spec_proof ls k) = H d.
Proof.
  intros Hk. unfold spec_proof. cbn.
  rewrite list_lookup_fmap, Hk. reflexivity.
Qed.

(** The exported form of a proof passes the standalone check. *)
Lemma spec_proof_included ls (k : nat) d :
  ls !! k = Some d ->
  verify_evidence_inclusion d (MerkleProof.to_dict (spec_proof ls k))
    (ref_root ls) = Ok true.
Proof.
  intros Hk. unfold verify_evidence_inclusion, MerkleProof.to_dict.
  cbn [field ProofDict.leaf_hash ProofDict.leaf_index ProofDict.proof_hashes
       ProofDict.proof_directions ProofDict.root_hash mbind outcome_bind].
  pose proof (spec_proof_verifies ls k d Hk) as Hverify.
  pose proof (spec_proof_leaf_hash ls k d Hk) as Hleaf.
  destruct (spec_proof ls k) as [lh li ph pd rh] eqn:Hproof.
  cbn [MerkleProof.leaf_hash MerkleProof.root_hash] in *.
  assert (Hrh : rh = ref_root ls)
    by (unfold spec_proof in Hproof; congruence).
  rewrite !bool_decide_eq_true_2 by congruence.
  cbn [MerkleProof.leaf_index MerkleProof.proof_hashes
       MerkleProof.proof_directions MerkleProof.leaf_hash MerkleProof.root_hash].
  rewrite Hverify. reflexivity.
Qed.

Section Positions.
Import MerkleTree.

Lemma export_loop_exported rest (j : nat) proofs self :
  lifecycle self ->
  drop j (leaves self) = rest ->
  export_loop (Z.of_nat <$> seq j (length rest)) proofs self
  = (Ok (proofs ++ exported (leaves self) j rest),
     if decide (rest = []) then self else Built (leaves self)).
Proof.
  revert j proofs self. induction rest as [|d rest IH];
    intros j proofs self Hself Hdrop.
  - cbn. rewrite app_nil_r. reflexivity.
  - assert (Hj : leaves self !! j = Some d).
    { pose proof (lookup_drop (leaves self) j 0) as Hlookup.
      rewrite Hdrop, Nat.add_0_r in Hlookup. symmetry. exact Hlookup. }
    cbn [length seq fmap list_fmap export_loop]. unfold bind at 1.
    rewrite (lifecycle_get_proof_by_index_in self j d Hself Hj).
    unfold bind. rewrite Built_leaves, (getitem_nat _ _ _ Hj).
    rewrite decide_False by discriminate.
    rewrite (IH (S j)); [|constructor|].
    + rewrite Built_leaves. unfold exported. cbn [imap].
      rewrite <- app_assoc, Nat.add_0_r. cbn [app].
      f_equal; [|destruct (decide (rest = [])); reflexivity].
      do 3 f_equal. apply imap_ext. intros i x _. cbn.
      do 3 f_equal. lia.
    + rewrite Built_leaves. replace (S j) with (j + 1) by lia.
      rewrite <- drop_drop, Hdrop. reflexivity.
Qed.

End Positions.

(** X9. [export_proofs()] on a reachable tree never raises and lists one
    entry per leaf, in order: the leaf's data with the proof of that
    position. Every listed proof passes the module-level
    [verify_evidence_inclusion] against the tree's root. *)
Theorem X9_export_proofs self :
  reachable self ->
  exists proofs,
    fst (MerkleTree.export_proofs self) = Ok proofs
    /\ length proofs = length (MerkleTree.leaves self)
    /\ (forall (i : nat) data,
          MerkleTree.leaves self !! i = Some data ->
          proofs !! i
          = Some (data, MerkleProof.to_dict
                          (spec_proof (MerkleTree.leaves self) i)))
    /\ (forall data proof,
          (data, proof) ∈ proofs ->
          verify_evidence_inclusion data proof
            (ref_root (MerkleTree.leaves self)) = Ok true).
Proof.
  intros Hself. apply reachable_lifecycle in Hself.
  unfold MerkleTree.export_proofs. unfold len. rewrite range_count.
  rewrite (export_loop_exported (MerkleTree.leaves self) 0 [] self Hself)
    by reflexivity.
  cbn [fst app]. eexists. split; [reflexivity|].
  unfold exported. split; [apply length_imap|]. split.
  - intros i data Hi. rewrite list_lookup_imap, Hi. reflexivity.
  - intros data proof Hin. apply list_elem_of_lookup in Hin as [i Hi].
    rewrite list_lookup_imap in Hi.
    destruct (MerkleTree.leaves self !! i) as [d|] eqn:Hd; [|discriminate].
    cbn in Hi. injection Hi as <- <-.
    apply spec_proof_included, Hd.
Qed.

Lemma X9_witness :
  reachable three_leaves
  /\ exists proofs,
       fst (MerkleTree.export_proofs three_leaves) = Ok proofs
       /\ length proofs = 3.
Proof.
  assert (Hreach : reachable three_leaves)
    by (do 3 apply reachable_call; apply reachable_new).
  split; [exact Hreach|].
  destruct (X9_export_proofs three_leaves Hreach)
    as (proofs & Hproofs & Hlen & _).
  exists proofs. split; [exact Hproofs|exact Hlen].
Defined.

(** X10. On a reachable tree the proof of every valid position, not only of
    first occurrences, verifies on its own, is accepted by the tree, and in
    its dictionary form passes [verify_evidence_inclusion] with the leaf's
    data and the tree's root. *)
Theorem X10_position_completeness self (i : nat) data :
  reachable self ->
  MerkleTree.leaves self !! i = Some data ->
  exists proof self',
    MerkleTree.get_proof_by_index (Z.of_nat i) self = (Ok (Some proof), self')
    /\ MerkleProof.leaf_index proof = Z.of_nat i
    /\ MerkleProof.leaf_hash proof = H data
    /\ MerkleProof.verify proof = Ok true
    /\ MerkleTree.verify_proof proof self' = (Ok true, self')
    /\ exists root_hash,
         fst (MerkleTree.get_root self') = Ok root_hash
         /\ verify_evidence_inclusion data (MerkleProof.to_dict proof)
              root_hash = Ok true.
Proof.
  intros Hself Hi. apply reachable_lifecycle in Hself.
  rewrite (lifecycle_get_proof_by_index_in self i data Hself Hi).
  eexists _, _. split; [reflexivity|]. split; [reflexivity|].
  split; [apply spec_proof_leaf_hash, Hi|].
  pose proof (spec_proof_verifies _ _ _ Hi) as Hverify.
  split; [exact Hverify|]. split.
  - rewrite lifecycle_verify_proof by constructor.
    rewrite !Built_leaves, Hverify.
    rewrite bool_decide_eq_true_2 by reflexivity. reflexivity.
  - rewrite get_root_Built. eexists. split; [reflexivity|].
    apply spec_proof_included, Hi.
Qed.

Lemma X10_witness :
  reachable three_leaves
  /\ MerkleTree.leaves three_leaves !! 2 = Some "data3"
  /\ exists proof self',
       MerkleTree.get_proof_by_index 2 three_leaves = (Ok (Some proof), self')
       /\ MerkleProof.verify proof = Ok true.
Proof.
  assert (Hreach : reachable three_leaves)
    by (do 3 apply reachable_call; apply reachable_new).
  assert (Hleaf : MerkleTree.leaves three_leaves !! 2 = Some "data3")
    by reflexivity.
  split; [exact Hreach|]. split; [exact Hleaf|].
  destruct (X10_position_completeness three_leaves 2 "data3" Hreach Hleaf)
    as (proof & self' & Hproof & _ & _ & Hverify & _).
  exists proof, self'. split; [exact Hproof|exact Hverify].
Defined.

(** ** [deserialize] on any document *)

Section Deserialize.
Import MerkleTree.

Lemma leaf_nodes_hashes self :
  length (leaves self) = length (leaf_hashes self) ->
  MerkleNode.hash <$> leaf_nodes self = leaf_hashes self.
Proof.
  unfold leaf_nodes. generalize (leaves self). generalize (leaf_hashes self).
  induction l as [|h hs IH]; intros [|d ls] Hlen; try discriminate.
  - reflexivity.
  - cbn. f_equal. apply IH. simpl in Hlen. lia.
Qed.


(** The root node carries the root over the stored leaf hashes. *)
Lemma top_node_hash self :
  length (leaves self) = length (leaf_hashes self) ->
  MerkleNode.hash (top_node self) = hash_root (leaf_hashes self).
Proof.
  intros Hlen. unfold top_node, hash_root.
  pose proof (leaf_nodes_hashes self Hlen) as Hhash.
  pose proof (hash_node_levels (leaf_nodes self)) as Hlevels.
  rewrite Hhash in Hlevels.
  destruct (leaf_hashes self) as [|h [|h' hs]] eqn:Hhs.
  - reflexivity.
  - destruct (leaves self); [discriminate|reflexivity].
  - rewrite <- Hlevels, fmap_last.
    destruct (node_levels_last (leaf_nodes self)) as [top ->].
    + intros Hnil. rewrite Hnil in Hhash. discriminate.
    + reflexivity.
Qed.



End Deserialize.



(** X12. [deserialize] takes the document's [leaf_hashes] as they are: for
    two lists of the same positive length the tree's root is the root over
    the given hashes, whatever the leaves are; the hashes are neither
    recomputed from the leaves nor compared with them. For hashes that are
    the hashes of the leaves this is the reference root. *)
Theorem X12_deserialize_trusts_hashes :
  (forall doc ls hs,
     TreeDoc.leaves doc = Some ls -> TreeDoc.leaf_hashes doc = Some hs ->
     length ls = length hs -> hs <> [] ->
     exists tree,
       MerkleTree.deserialize doc = Ok tree
       /\ MerkleTree.leaves tree = ls
       /\ MerkleTree.leaf_hashes tree = hs
       /\ fst (MerkleTree.get_root tree) = Ok (hash_root hs))
  /\ (forall ls, hash_root (H <$> ls) = ref_root ls).
Proof.
  split; [|intros ls; unfold hash_root, ref_root;
           destruct (H <$> ls) as [|? [|? ?]]; reflexivity].
  intros doc ls hs Hls Hhs Hlen Hne. unfold MerkleTree.deserialize.
  rewrite Hls, Hhs.
  cbn [field mbind outcome_bind MerkleTree.leaves MerkleTree.leaf_hashes
       MerkleTree.root MerkleTree._tree_cache MerkleTree.__init__].
  rewrite bool_decide_eq_false_2 by assumption.
  rewrite build_tree_result by exact Hlen.
  eexists. split; [reflexivity|]. split; [reflexivity|].
  split; [reflexivity|].
  unfold MerkleTree.get_root. cbn [MerkleTree.root fst].
  rewrite top_node_hash by exact Hlen. reflexivity.
Qed.

Lemma X12_witness :
  exists tree,
    MerkleTree.deserialize
      (TreeDoc.Build (Some ["data1"]) (Some ["00"]) None None) = Ok tree
    /\ fst (MerkleTree.get_root tree) = Ok "00".
Proof.
  destruct X12_deserialize_trusts_hashes as [Htrust _].
  destruct (Htrust (TreeDoc.Build (Some ["data1"]) (Some ["00"]) None None)
              ["data1"] ["00"] eq_refl eq_refl eq_refl)
    as (tree & Htree & _ & _ & Hroot); [discriminate|].
  exists tree. split; [exact Htree|exact Hroot].
Defined.

(** ** When verification raises *)

(** X13. A proof with fewer directions than sibling hashes gets no answer
    from [verify()]: the call does not return a boolean. Whenever
    [get_root()] returns, [verify_proof(proof)] answers false for a proof
    whose root is another one, and for a proof with that root and fewer
    directions than sibling hashes it does not return a boolean. *)
Theorem X13_missing_directions_unanswered :
  (forall proof,
     length (MerkleProof.proof_directions proof)
       < length (MerkleProof.proof_hashes proof) ->
     forall b, MerkleProof.verify proof <> Ok b)
  /\ (forall self proof expected_root,
        fst (MerkleTree.get_root self) = Ok expected_root ->
        (MerkleProof.root_hash proof <> expected_root ->
         fst (MerkleTree.verify_proof proof self) = Ok false)
        /\ (MerkleProof.root_hash proof = expected_root ->
            length (MerkleProof.proof_directions proof)
              < length (MerkleProof.proof_hashes proof) ->
            forall b, fst (MerkleTree.verify_proof proof self) <> Ok b)).
Proof.
  split.
  - intros proof Hlen b. rewrite verify_short by exact Hlen. discriminate.
  - intros self proof expected_root Hroot.
    unfold MerkleTree.verify_proof, MerkleTree.bind.
    destruct (MerkleTree.get_root self) as [[r|e] self'];
      cbn [fst] in Hroot; [|discriminate].
    injection Hroot as ->. split.
    + intros Hne. rewrite bool_decide_eq_false_2 by exact Hne. reflexivity.
    + intros Heq Hlen b. rewrite bool_decide_eq_true_2 by exact Heq.
      unfold MerkleTree.lift. cbn [fst].
      rewrite verify_short by exact Hlen. discriminate.
Qed.

Lemma X13_witness :
  fst (MerkleTree.get_root MerkleTree.__init__) = Ok (H "")
  /\ length (MerkleProof.proof_directions malformed_proof)
       < length (MerkleProof.proof_hashes malformed_proof)
  /\ MerkleProof.verify malformed_proof <> Ok true
  /\ fst (MerkleTree.verify_proof malformed_proof MerkleTree.__init__)
     <> Ok false.
Proof.
  assert (Hroot : fst (MerkleTree.get_root MerkleTree.__init__) = Ok (H ""))
    by reflexivity.
  assert (Hlen : length (MerkleProof.proof_directions malformed_proof)
                 < length (MerkleProof.proof_hashes malformed_proof))
    by (simpl; lia).
  split; [exact Hroot|]. split; [exact Hlen|].
  destruct X13_missing_directions_unanswered as [Hverify Htree].
  split; [exact (Hverify malformed_proof Hlen true)|].
  destruct (Htree MerkleTree.__init__ malformed_proof (H "") Hroot)
    as [_ Hsame].
  exact (Hsame eq_refl Hlen false).
Defined.

(** ** What [verify] reads of the directions *)

Section Directions.

Lemma fold_step_as_read current sibling direction :
  fold_step current (sibling, as_read direction)
  = fold_step current (sibling, direction).
Proof.
  unfold fold_step, as_read.
  destruct (bool_decide (direction = "left")); reflexivity.
Qed.

Lemma foldl_as_read hashes directions current :
  foldl fold_step current
    (zip hashes (as_read <$> take (length hashes) directions))
  = foldl fold_step current (zip hashes directions).
Proof.
  revert directions current.
  induction hashes as [|h hashes IH]; intros [|d directions] current;
    try reflexivity.
  cbn [length take fmap list_fmap zip zip_with foldl].
  rewrite fold_step_as_read. apply IH.
Qed.

End Directions.

(** X14. [verify()] reads a direction only as ['left'] or not: any other
    string counts as a right sibling, and directions beyond the number of
    sibling hashes are never read. *)
Theorem X14_directions_as_read leaf_hash leaf_index hashes directions root_hash :
  length hashes <= length directions ->
  MerkleProof.verify
    (MerkleProof.Build leaf_hash leaf_index hashes directions root_hash)
  = MerkleProof.verify
      (MerkleProof.Build leaf_hash leaf_index hashes
         (as_read <$> take (length hashes) directions) root_hash).
Proof.
  intros Hlen. rewrite !verify_fold.
  - cbn. unfold spec_verify. rewrite foldl_as_read. reflexivity.
  - cbn. rewrite length_fmap, length_take. lia.
  - exact Hlen.
Qed.

Lemma X14_witness :
  length [H "data2"] <= length ["RIGHT"; "left"]
  /\ MerkleProof.verify
       (MerkleProof.Build (H "data1") 0 [H "data2"] ["RIGHT"; "left"]
          (H (H "data1" +:+ H "data2")))
     = Ok true.
Proof.
  assert (Hlen : length [H "data2"] <= length ["RIGHT"; "left"])
    by (simpl; lia).
  split; [exact Hlen|].
  rewrite (X14_directions_as_read _ _ _ _ _ Hlen).
  vm_compute. reflexivity.
Defined.

(** ** The nodes of a built tree *)

Section Nodes.
Import MerkleTree.

Lemma parent_node_sound left_node right_node :
  well_formed left_node = true -> well_formed right_node = true ->
  sound_parent (parent_node left_node right_node).
Proof.
  intros Hl Hr. split; [|reflexivity]. unfold parent_node. cbn.
  rewrite Hl, Hr, !bool_decide_eq_true_2 by reflexivity. reflexivity.
Qed.

Lemma node_parents_sound ns :
  Forall (fun node => well_formed node = true) ns ->
  Forall sound_parent (node_parents ns).
Proof.
  pair_induction ns; intros Hns; cbn [node_parents].
  - constructor.
  - apply Forall_inv in Hns.
    constructor; [apply parent_node_sound; assumption|constructor].
  - apply Forall_cons in Hns as [Ha Hns].
    apply Forall_cons in Hns as [Hb Hns].
    constructor; [apply parent_node_sound; assumption|].
    apply IH; [simpl; lia|exact Hns].
Qed.

Lemma node_levels_above_sound ns :
  Forall (fun node => well_formed node = true) ns ->
  Forall (Forall sound_parent) (tail (node_levels ns)).
Proof.
  induction ns as [ns IH] using (induction_ltof1 _ (@length _)).
  unfold ltof in IH. intros Hns.
  destruct (decide (1 < length ns)) as [Hn|Hn].
  - rewrite node_levels_long by assumption. cbn [tail].
    pose proof (node_parents_sound ns Hns) as Hparents.
    destruct (node_levels_head (node_parents ns)) as [above Habove].
    rewrite Habove. constructor; [exact Hparents|].
    change above with (tail (node_parents ns :: above)).
    rewrite <- Habove. apply IH.
    + rewrite node_parents_length. apply Nat.Div0.div_lt_upper_bound. lia.
    + eapply Forall_impl; [exact Hparents|]. intros node [Hwf _]. exact Hwf.
  - rewrite node_levels_short by assumption. constructor.
Qed.

Lemma leaf_nodes_sound self : Forall sound_leaf (leaf_nodes self).
Proof.
  unfold leaf_nodes. apply Forall_fmap, Forall_forall.
  intros [h d] _. split; reflexivity.
Qed.

(** Level 0 holds sound leaves, the levels above hold sound parents. *)
Lemma cached_level_sound self (k : nat) level node :
  node_levels (leaf_nodes self) !! k = Some level ->
  node ∈ level ->
  well_formed node = true /\ (MerkleNode.is_leaf node = true <-> k = 0).
Proof.
  intros Hlevel Hnode.
  destruct (node_levels_head (leaf_nodes self)) as [above Habove].
  pose proof (leaf_nodes_sound self) as Hleaves.
  assert (Hwf : Forall (fun node => well_formed node = true) (leaf_nodes self)).
  { eapply Forall_impl; [exact Hleaves|]. intros ? [? _]. assumption. }
  pose proof (node_levels_above_sound _ Hwf) as Habovesound.
  rewrite Habove in Hlevel, Habovesound. cbn [tail] in Habovesound.
  destruct k as [|k].
  - injection Hlevel as <-. rewrite Forall_forall in Hleaves.
    destruct (Hleaves node Hnode) as [? ?]. split; [assumption|tauto].
  - cbn in Hlevel. rewrite Forall_forall in Habovesound.
    pose proof (Habovesound level (list_elem_of_lookup_2 _ _ _ Hlevel)) as Hl.
    rewrite Forall_forall in Hl. destruct (Hl node Hnode) as [? Hint].
    split; [assumption|]. rewrite Hint. split; [discriminate|lia].
Qed.

End Nodes.

(** X15. In every reachable tree the cached root node and every cached node
    are well formed: a node has no child, or it has both children and its
    hash is H(left.hash || right.hash), all the way down; no node has exactly
    one child. The nodes cached at level 0 are the only leaves. *)
Theorem X15_nodes_well_formed self :
  reachable self ->
  (forall node, MerkleTree.root self = Some node -> well_formed node = true)
  /\ (forall (k : Z) level node,
        MerkleTree._tree_cache self !! k = Some level ->
        node ∈ level ->
        well_formed node = true
        /\ (MerkleNode.is_leaf node = true <-> k = 0%Z)).
Proof.
  intros Hself. apply reachable_lifecycle in Hself.
  destruct Hself as [ls|ls].
  - split; [discriminate|]. intros k level node Hk. cbn in Hk.
    rewrite lookup_empty in Hk. discriminate.
  - rewrite Built_root, Built_cache. unfold level_cache.
    cbn [Dirty MerkleTree.leaf_hashes].
    assert (Hcache : forall (k : Z) (level : list MerkleNode.t) node,
              map_seqZ (M := gmap Z (list MerkleNode.t)) 0 (node_levels (leaf_nodes (Dirty ls))) !! k = Some level ->
              node ∈ level ->
              well_formed node = true
              /\ (MerkleNode.is_leaf node = true <-> k = 0%Z)).
    { intros k level node Hk Hnode.
      apply lookup_map_seqZ_Some in Hk as [Hpos Hk].
      rewrite Z.sub_0_r in Hk.
      destruct (cached_level_sound _ _ _ _ Hk Hnode) as [Hwf Hleaf].
      split; [exact Hwf|]. rewrite Hleaf. lia. }
    split.
    + intros node [= <-]. unfold top_node. cbn [Dirty MerkleTree.leaf_hashes
                                               MerkleTree.leaves].
      destruct ls as [|d [|d' ls]]; [reflexivity|reflexivity|].
      cbn [fmap list_fmap].
      change (H d :: H d' :: (H <$> ls)) with (H <$> d :: d' :: ls).
      fold (Dirty (d :: d' :: ls)).
      destruct (node_levels_last (leaf_nodes (Dirty (d :: d' :: ls))))
        as [top Htop]; [discriminate|].
      rewrite Htop. cbn [mbind option_bind head default].
      rewrite last_lookup in Htop.
      apply (Hcache (Z.of_nat (pred (length (node_levels
                       (leaf_nodes (Dirty (d :: d' :: ls))))))) [top] top).
      * apply lookup_map_seqZ_Some. split; [lia|].
        rewrite Z.sub_0_r, Nat2Z.id. exact Htop.
      * apply list_elem_of_singleton. reflexivity.
    + destruct (decide (1 < length (H <$> ls))); [exact Hcache|].
      intros k level node Hk. rewrite lookup_empty in Hk. discriminate.
Qed.

Lemma X15_witness :
  reachable three_leaves_built
  /\ exists node,
       MerkleTree.root three_leaves_built = Some node
       /\ well_formed node = true
       /\ MerkleNode.is_leaf node = false.
Proof.
  assert (Hreach : reachable three_leaves_built)
    by (do 4 apply reachable_call; apply reachable_new).
  split; [exact Hreach|].
  destruct (X15_nodes_well_formed three_leaves_built Hreach) as [Hroot _].
  destruct (MerkleTree.root three_leaves_built) as [node|] eqn:Hnode.
  - exists node. split; [reflexivity|]. split; [apply Hroot; reflexivity|].
    revert Hnode. vm_compute. intros [= <-]. reflexivity.
  - exfalso. revert Hnode. vm_compute. discriminate.
Defined.

(** X16. [create_evidence_tree(hashes)] returns a reachable tree that holds
    exactly the given strings, in order and with repetitions, already built:
    its root is cached, and [get_root()] returns the reference root without
    changing the tree. *)
Theorem X16_create_evidence_tree evidence_hashes :
  reachable (create_evidence_tree evidence_hashes)
  /\ MerkleTree.leaves (create_evidence_tree evidence_hashes)
     = evidence_hashes
  /\ MerkleTree.root (create_evidence_tree evidence_hashes) <> None
  /\ MerkleTree.get_root (create_evidence_tree evidence_hashes)
     = (Ok (ref_root evidence_hashes), create_evidence_tree evidence_hashes).
Proof.
  rewrite create_evidence_tree_Built.
  split; [apply reachable_Built|]. split; [apply Built_leaves|].
  split; [rewrite Built_root; discriminate|apply get_root_Built].
Qed.

(** X17. [serialize()] on a reachable tree never raises and leaves the tree
    built. The document holds the leaves, their hashes, the reference root
    and a summary whose height is that of the built tree (never the stale
    height a bare [get_tree_info()] can report), because the root is fetched
    before the summary is taken. *)
Theorem X17_serialize_document self :
  reachable self ->
  MerkleTree.serialize self
  = (Ok (TreeDoc.Build
           (Some (MerkleTree.leaves self))
           (Some (H <$> MerkleTree.leaves self))
           (Some (ref_root (MerkleTree.leaves self)))
           (Some (TreeInfo.Build
                    (len (MerkleTree.leaves self))
                    (if decide (MerkleTree.leaves self = []) then 0%Z
                     else Z.of_nat
                            (length (ref_levels
                                       (H <$> MerkleTree.leaves self))))
                    (ref_root (MerkleTree.leaves self)) true))),
     Built (MerkleTree.leaves self)).
Proof.
  intros Hself. apply reachable_lifecycle in Hself.
  unfold MerkleTree.serialize, MerkleTree.bind.
  rewrite (lifecycle_get_root self Hself), get_tree_info_Built.
  rewrite (lifecycle_leaf_hashes self Hself). reflexivity.
Qed.

Lemma X17_witness :
  reachable three_leaves
  /\ exists doc,
       fst (MerkleTree.serialize three_leaves) = Ok doc
       /\ TreeDoc.leaves doc = Some ["data1"; "data2"; "data3"]
       /\ (TreeInfo.tree_height <$> TreeDoc.tree_info doc) = Some 3%Z.
Proof.
  assert (Hreach : reachable three_leaves)
    by (do 3 apply reachable_call; apply reachable_new).
  split; [exact Hreach|].
  rewrite (X17_serialize_document three_leaves Hreach).
  eexists. split; [reflexivity|]. split; [reflexivity|].
  vm_compute. reflexivity.
Defined.
